(** * Verification of [wrapper.py]: the progress monitor, the inference pipeline and the workflow

    The development embeds the components of [wrapper.py] that carry
    behaviour of their own:

    - [Monitor] (lines 56-90), the iteration wrapper that reports progress
      to the job while re-exposing the elements of its iterable;
    - [predict_img] (lines 22-46), the resize / normalise / infer / resize
      back / threshold chain;
    - [load_model] (lines 49-53) and [main] (lines 93-131), the workflow
      that runs the two over the input images, as the sequence of what it
      does to the job and to the disk.

    Python's [int] is [Z].  Python's [float] is an IEEE-754 binary64 number;
    module [Float] gives the values and the correctly rounded operations the
    program uses, so that [i / float(total)] and [int(start + d * ratio)]
    compute here what they compute in CPython. *)

From Stdlib Require Import ZArith List String Lia Bool Sorted Floats.
From Stdlib Require Import DecimalString.
Import ListNotations.
Open Scope Z_scope.

(** ** Exceptions and the error monad *)

(** The exceptions the modelled code can raise. *)
Inductive exn : Type :=
| ZeroDivisionError   (* [i % 0], [x / 0.0] *)
| OverflowError       (* an int too large for a float, [int(inf)] *)
| ValueError          (* [int(nan)], a failed unpacking, mismatched axes *)
| ExternalError.      (* raised inside a library the program calls *)

Inductive result (A : Type) : Type :=
| Ok (a : A)
| Raise (e : exn).
Arguments Ok {A} a.
Arguments Raise {A} e.

Definition bind {A B : Type} (r : result A) (k : A -> result B) : result B :=
  match r with
  | Ok a => k a
  | Raise e => Raise e
  end.

Notation "x <- r ;; k" := (bind r (fun x => k))
  (at level 61, r at next level, right associativity).

(** ** Python floats: IEEE-754 binary64 *)

Module Float.

(** Every finite double is an integer multiple of [2^-1074], the smallest
    subnormal.  A finite value is stored as that integer [k]: the double is
    [k * 2^-1074].  A double has a 53-bit significand, so [k] is
    representable when it is [m * 2^s] with [|m| < 2^53]; its magnitude is
    below [2^1024], that is [|k| < 2^2098]. *)
Inductive float : Type :=
| Fin (k : Z)
| Inf (negative : bool)
| NaN.

(** The double 1.0, in units of [2^-1074]. *)
Definition one : Z := 2 ^ 1074.

(** [2^1024] in units: a rounded magnitude that reaches it is infinite. *)
Definition overflow_threshold : Z := 2 ^ 2098.

(** Nearest integer to [n / d], ties to the even one ([0 <= n], [0 < d]). *)
Definition round_half_even (n d : Z) : Z :=
  let q := n / d in
  match 2 * (n mod d) ?= d with
  | Lt => q
  | Gt => q + 1
  | Eq => if Z.even q then q else q + 1
  end.

(** The spacing of the doubles around [n / d] is [2^shift n d] units: one
    unit below [2^53] units (subnormals and the first binade), doubling with
    each binade above. *)
Definition shift (n d : Z) : Z := Z.max 0 (Z.log2 (n / d) - 52).

(** Round to nearest, ties to even, of the non-negative rational [n / d]
    (in units), before the overflow test. *)
Definition round_pos (n d : Z) : Z :=
  let s := 2 ^ shift n d in
  round_half_even n (d * s) * s.

(** The same for a rational of either sign, [0 < d]. *)
Definition round (n d : Z) : Z := Z.sgn n * round_pos (Z.abs n) d.

(** A rounded value becomes a float: infinite once it reaches [2^1024]. *)
Definition finish (k : Z) : float :=
  if overflow_threshold <=? Z.abs k then Inf (k <? 0) else Fin k.

(** Rounding of [n / d] for a denominator of either sign, [d <> 0]. *)
Definition round_quot (n d : Z) : float :=
  if 0 <? d then finish (round n d) else finish (round (- n) (- d)).

Definition is_zero (x : float) : bool :=
  match x with Fin 0 => true | _ => false end.

Definition is_negative (x : float) : bool :=
  match x with Fin k => k <? 0 | Inf s => s | NaN => false end.

(** [x * y] on floats. *)
Definition mul (x y : float) : float :=
  match x, y with
  | Fin a, Fin b => finish (round (a * b) one)
  | NaN, _ | _, NaN => NaN
  | Inf s, z | z, Inf s =>
      if is_zero z then NaN else Inf (xorb s (is_negative z))
  end.

(** [x + y] on floats. *)
Definition add (x y : float) : float :=
  match x, y with
  | Fin a, Fin b => finish (round (a + b) 1)
  | NaN, _ | _, NaN => NaN
  | Inf s, Inf t => if Bool.eqb s t then Inf s else NaN
  | Inf s, Fin _ | Fin _, Inf s => Inf s
  end.

(** [x / y] on floats: Python raises [ZeroDivisionError] on a zero divisor
    before any IEEE rule applies. *)
Definition div (x y : float) : result float :=
  if is_zero y then Raise ZeroDivisionError else
  match x, y with
  | Fin a, Fin b => Ok (round_quot (a * one) b)
  | NaN, _ | _, NaN => Ok NaN
  | Inf _, Inf _ => Ok NaN
  | Inf s, Fin b => Ok (Inf (xorb s (b <? 0)))
  | Fin _, Inf _ => Ok (Fin 0)
  end.

(** The conversion of a Python int in a mixed int/float operation and in
    [float(n)]: correctly rounded, [OverflowError] when out of range. *)
Definition of_int (n : Z) : result float :=
  match finish (round (n * one) 1) with
  | Fin k => Ok (Fin k)
  | _ => Raise OverflowError
  end.

(** [int(x)]: truncation toward zero; [OverflowError] on an infinity and
    [ValueError] on a NaN. *)
Definition to_int (x : float) : result Z :=
  match x with
  | Fin k => Ok (Z.quot k one)
  | Inf _ => Raise OverflowError
  | NaN => Raise ValueError
  end.

(** The double nearest to the decimal literal [n / d] of the source text
    ([0.05] is [literal 5 100]). *)
Definition literal (n d : Z) : float := round_quot (n * one) d.

(** The value of a hardware double of the Standard Library, for comparing
    the operations above with the processor's. *)
Definition of_prim (f : PrimFloat.float) : float :=
  match Prim2SF f with
  | S754_zero _ => Fin 0
  | S754_infinity s => Inf s
  | S754_nan => NaN
  | S754_finite s m e =>
      let k := Z.shiftl (Z.pos m) (e + 1074) in
      Fin (if s then - k else k)
  end.

(** [k] units is a double: its magnitude is a multiple of the spacing of
    the doubles around it. *)
Definition representable (k : Z) : Prop :=
  Z.abs k mod 2 ^ shift (Z.abs k) 1 = 0.

(** The double nearest to the integer [n], in units. *)
Definition fl (n : Z) : Z := round (n * one) 1.

End Float.

(** ** The progress monitor ([class Monitor], lines 56-90) *)

Module Monitor.

(** The [period] argument of the constructor: [None], an int or a float
    ([isinstance(self._update_period, float)] tells the last two apart). *)
Inductive period_spec : Type :=
| PeriodNone
| PeriodInt (p : Z)
| PeriodFloat (f : Float.float).

(** What the job receives and what the generator hands to its consumer, in
    the order in which it happens. *)
Inductive event (A : Type) : Type :=
| JobUpdate (progress : Z) (statusComment : string)
| Yield (v : A).
Arguments JobUpdate {A} progress statusComment.
Arguments Yield {A} v.

(** The wrapped iterable.  A [Sequence] (list, tuple) starts afresh at each
    [iter()]; an [Iterator] (generator, file) is its own iterator and is
    consumed once, by whoever asks first. *)
Inductive iterable (A : Type) : Type :=
| Sequence (items : list A)
| Iterator (pending : list A).
Arguments Sequence {A} items.
Arguments Iterator {A} pending.

Record Monitor (A : Type) : Type := {
  _start : Z;
  _end : Z;
  _update_period : period_spec;
  _iterable : iterable A;
  _prefix : option string
}.
Arguments _start {A} m.
Arguments _end {A} m.
Arguments _update_period {A} m.
Arguments _iterable {A} m.
Arguments _prefix {A} m.

(** How a run of the generator ended: the events up to its end, and the
    exception that ended it, if one did. *)
Record outcome (A : Type) : Type := {
  trace : list (event A);
  raised : option exn
}.
Arguments trace {A} o.
Arguments raised {A} o.

(** [sys.maxsize]: no Python list is longer. *)
Definition sys_maxsize : Z := 2 ^ 63 - 1.

(** An int that converts to a float with room to spare: the magnitudes a
    progress scale is made of. *)
Definition float_safe (z : Z) : Prop := Z.abs z <= 2 ^ 1000.

(** The period specifications of the contract: none, an int of at least 1,
    a float in (0, 1]. *)
Definition valid_period (sp : period_spec) : Prop :=
  match sp with
  | PeriodNone => True
  | PeriodInt p => 1 <= p
  | PeriodFloat (Float.Fin k) => 0 < k <= Float.one
  | PeriodFloat _ => False
  end.

(** [i / float(n)] in units, when nothing overflows. *)
Definition ratio_units (i n : Z) : Z :=
  Float.round (Float.fl i * Float.one) (Float.fl n).

(** [start + (end - start) * ratio] in units, when nothing overflows. *)
Definition progress_units (start end_ r : Z) : Z :=
  Float.round
    (Float.fl start + Float.round (Float.fl (end_ - start) * r) Float.one) 1.

(** [int(start + (end - start) * (i / n))] computed on significands
    scaled by [2^(53 + c)] instead of units: the same roundings on numbers
    of a hundred bits. *)
Definition progress_small (s e i n c : Z) : Z :=
  let r0 := Float.round (i * 2 ^ (53 + c)) n in
  let p0 := Float.round ((e - s) * r0) 1 in
  let v0 := Float.round (s * 2 ^ (53 + c) + p0) 1 in
  Z.quot v0 (2 ^ (53 + c)).

(** When [progress_small] applies: the operands are exact as doubles and
    every intermediate result is in the normal range. *)
Definition small_ok (s e i n c : Z) : bool :=
  let r0 := Float.round (i * 2 ^ (53 + c)) n in
  let p0 := Float.round ((e - s) * r0) 1 in
  (Z.abs s <=? 2 ^ 53) && (Z.abs (e - s) <=? 2 ^ 53) &&
  (0 <=? i) && (i <=? 2 ^ 53) && (0 <? n) && (n <=? 2 ^ 53) &&
  (0 <=? c) && (c <=? 1021) &&
  (2 ^ 52 <=? Z.abs (i * 2 ^ (53 + c)) / n) &&
  (2 ^ 52 <=? Z.abs ((e - s) * r0) / 1) &&
  (2 ^ 52 <=? Z.abs (s * 2 ^ (53 + c) + p0) / 1).

Section Monitor.
Context {A : Type}.

Definition len (l : list A) : Z := Z.of_nat (List.length l).

(** [len(list(self._iterable))] (line 90): the count, and the iterable as
    the call leaves it. *)
Definition __len__ (it : iterable A) : Z * iterable A :=
  match it with
  | Sequence l => (len l, Sequence l)
  | Iterator l => (len l, Iterator [])
  end.

(** What [enumerate(self._iterable)] still has to go through. *)
Definition remaining (it : iterable A) : list A :=
  match it with
  | Sequence l => l
  | Iterator l => l
  end.

(** [_get_period] (lines 68-74). *)
Definition _get_period (m : Monitor A) (n_iter : Z) : result (option Z) :=
  match _update_period m with
  | PeriodNone => Ok None
  | PeriodFloat f =>
      n <- Float.of_int n_iter ;;
      k <- Float.to_int (Float.mul f n) ;;
      Ok (Some (Z.max k 1))
  | PeriodInt p => Ok (Some p)
  end.

(** [_relative_progress] (lines 76-77):
    [int(self._start + (self._end - self._start) * ratio)]. *)
Definition _relative_progress (m : Monitor A) (ratio : Float.float) : result Z :=
  d <- Float.of_int (_end m - _start m) ;;
  let p := Float.mul d ratio in
  s <- Float.of_int (_start m) ;;
  Float.to_int (Float.add s p).

(** [str(n)] for an int. *)
Definition str_int (n : Z) : string := NilZero.string_of_int (Z.to_int n).

(** ["{} ({}/{}).".format(prefix, a, b)]; [None] prints as [None]. *)
Definition format_status (prefix : option string) (a b : Z) : string :=
  ((match prefix with Some s => s | None => "None" end)
   ++ " (" ++ str_int a ++ "/" ++ str_int b ++ ").")%string.

(** [period is None or i % period == 0] (line 83). *)
Definition is_due (period : option Z) (i : Z) : result bool :=
  match period with
  | None => Ok true
  | Some p => if p =? 0 then Raise ZeroDivisionError else Ok (i mod p =? 0)
  end.

(** [i / float(total)] (line 85). *)
Definition true_div (i total : Z) : result Float.float :=
  t <- Float.of_int total ;;
  n <- Float.of_int i ;;
  Float.div n t.

(** Lines 82-86: what one turn of the loop does before it yields. *)
Definition before_yield (m : Monitor A) (total i : Z) : result (list (event A)) :=
  period <- _get_period m total ;;
  due <- is_due period i ;;
  if (due : bool) then
    let statusComment :=
      format_status (_prefix m) (i + 1) (fst (__len__ (_iterable m))) in
    ratio <- true_div i total ;;
    relative_progress <- _relative_progress m ratio ;;
    Ok [JobUpdate relative_progress statusComment]
  else Ok [].

(** The [for] loop of lines 81-87 from index [i] on.  The [len(self)] of
    line 84 leaves a [Sequence] as it is; an [Iterator] is drained by line
    80 before the loop starts, so that the body never runs on one. *)
Fixpoint loop (m : Monitor A) (total i : Z) (items : list A) : outcome A :=
  match items with
  | [] => {| trace := []; raised := None |}
  | v :: rest =>
      match before_yield m total i with
      | Raise e => {| trace := []; raised := Some e |}
      | Ok evs =>
          let o := loop m total (i + 1) rest in
          {| trace := evs ++ Yield v :: trace o; raised := raised o |}
      end
  end.

(** [__iter__] (lines 79-87), run to its end. *)
Definition __iter__ (m : Monitor A) : outcome A :=
  let (total, it) := __len__ (_iterable m) in
  loop m total 0 (remaining it).

(** The elements a run handed out, in order. *)
Fixpoint yielded (tr : list (event A)) : list A :=
  match tr with
  | [] => []
  | Yield v :: tr' => v :: yielded tr'
  | JobUpdate _ _ :: tr' => yielded tr'
  end.

(** The calls of [job.update] of a run, in order. *)
Fixpoint updates (tr : list (event A)) : list (Z * string) :=
  match tr with
  | [] => []
  | JobUpdate p c :: tr' => (p, c) :: updates tr'
  | Yield _ :: tr' => updates tr'
  end.

(** A run seen turn by turn: each element handed out, with the calls of
    [job.update] made since the element before it. *)
Fixpoint turns_from (calls : list (Z * string)) (tr : list (event A))
  : list (list (Z * string) * A) :=
  match tr with
  | [] => []
  | JobUpdate p c :: tr' => turns_from (calls ++ [(p, c)]) tr'
  | Yield v :: tr' => (calls, v) :: turns_from [] tr'
  end.

Definition turns (tr : list (event A)) : list (list (Z * string) * A) :=
  turns_from [] tr.

(** *** The run in closed form

    What follows describes a run that no exception interrupts; the proofs
    show that [__iter__] is such a run under the contract. *)

(** The period in force for a total of [n]; [None] when every index is due. *)
Definition period_of (m : Monitor A) (n : Z) : option Z :=
  match _update_period m with
  | PeriodNone => None
  | PeriodInt p => Some p
  | PeriodFloat (Float.Fin k) =>
      Some (Z.max (Z.quot (Float.round (k * Float.fl n) Float.one) Float.one) 1)
  | PeriodFloat _ => None
  end.

Definition due (m : Monitor A) (n i : Z) : bool :=
  match period_of m n with
  | None => true
  | Some p => i mod p =? 0
  end.

Definition progress (m : Monitor A) (n i : Z) : Z :=
  Z.quot (progress_units (_start m) (_end m) (ratio_units i n)) Float.one.

(** The calls of [job.update] of turn [i]. *)
Definition calls (m : Monitor A) (n i : Z) : list (Z * string) :=
  if due m n i
  then [(progress m n i,
         format_status (_prefix m) (i + 1) (fst (__len__ (_iterable m))))]
  else [].

(** The events of turn [i] before its [Yield]. *)
Definition report (m : Monitor A) (n i : Z) : list (event A) :=
  if due m n i
  then [JobUpdate (progress m n i)
          (format_status (_prefix m) (i + 1) (fst (__len__ (_iterable m))))]
  else [].

(** Turn after turn, the report of the turn and the element. *)
Fixpoint expected (m : Monitor A) (n i : Z) (items : list A) : list (event A) :=
  match items with
  | [] => []
  | v :: rest => report m n i ++ Yield v :: expected m n (i + 1) rest
  end.

(** The monitor of [main] (line 105):
    [Monitor(nj, in_images, start=20, end=75, period=0.05, prefix=...)]. *)
Definition main_monitor (in_images : list A) : Monitor A :=
  {| _start := 20;
     _end := 75;
     _update_period := PeriodFloat (Float.literal 5 100);
     _iterable := Sequence in_images;
     _prefix := Some "Apply UNet to input images"%string |}.

End Monitor.

(** Ten inputs, by number. *)
Definition ten : list Z := [0; 1; 2; 3; 4; 5; 6; 7; 8; 9].

(** A monitor on a scale where neighbouring integers are neighbouring
    doubles. *)
Definition big_scale_monitor : Monitor Z :=
  {| _start := 2 ^ 52;
     _end := 2 ^ 52 + 1;
     _update_period := PeriodNone;
     _iterable := Sequence [7; 8; 9];
     _prefix := None |}.

(** A monitor on the scale 0-100 over [in_images], reporting at every
    element. *)
Definition percent_monitor (in_images : iterable Z) : Monitor Z :=
  {| _start := 0;
     _end := 100;
     _update_period := PeriodNone;
     _iterable := in_images;
     _prefix := None |}.

(** *** The constructor *)

Section Init.
Context {A : Type}.

(** [__init__] (lines 57-63).  The job is the receiver of the [JobUpdate]
    events of a run and has no field here. *)
Definition __init__ (iterable : iterable A) (start end_ : Z)
    (period : period_spec) (prefix : option string) : Monitor A :=
  {| _start := start;
     _end := end_;
     _update_period := period;
     _iterable := iterable;
     _prefix := prefix |}.

(** [Monitor(job, iterable)]: the defaults of line 57,
    [start=0, end=100, period=None, prefix=None]. *)
Definition default_monitor (iterable : iterable A) : Monitor A :=
  __init__ iterable 0 100 PeriodNone None.

End Init.

End Monitor.

(** ** The inference pipeline ([predict_img], lines 18-46) *)

Module Predict.

(** An n-dimensional array (numpy array, torch tensor, PIL image): its
    shape and its elements by index. *)
Record ndarray (T : Type) : Type := {
  shape : list nat;
  item : list nat -> T
}.
Arguments shape {T} _.
Arguments item {T} _ _.

(** An elementwise operation keeps the shape. *)
Definition map_array {T U : Type} (f : T -> U) (a : ndarray T) : ndarray U :=
  {| shape := shape a; item := fun idx => f (item a idx) |}.

(** [height, width, channel = full_img.shape] (line 24): a tuple of any
    other length does not unpack. *)
Definition unpack3 (s : list nat) : result (nat * nat * nat) :=
  match s with
  | [h; w; c] => Ok (h, w, c)
  | _ => Raise ValueError
  end.

(** [np.transpose(img, axes=[2, 0, 1])] (line 28): axis [n] of the result
    is axis [axes[n]] of the argument, which must have three axes. *)
Definition transpose_201 {T : Type} (a : ndarray T) : result (ndarray T) :=
  match shape a with
  | [d0; d1; d2] =>
      Ok {| shape := [d2; d0; d1];
            item := fun idx =>
              match idx with
              | [k; i; j] => item a [i; j; k]
              | _ => item a idx
              end |}
  | _ => Raise ValueError
  end.

(** [.unsqueeze(0)] (line 29). *)
Definition unsqueeze0 {T : Type} (a : ndarray T) : ndarray T :=
  {| shape := 1%nat :: shape a; item := fun idx => item a (tl idx) |}.

(** [.squeeze(0)] (line 33): drops the first axis when its size is 1. *)
Definition squeeze0 {T : Type} (a : ndarray T) : ndarray T :=
  match shape a with
  | 1%nat :: s => {| shape := s; item := fun idx => item a (0%nat :: idx) |}
  | _ => a
  end.

(** The index, in an array of shape [s], of the element that has index
    [idx] once every axis of size 1 is dropped. *)
Fixpoint unsqueezed_index (s idx : list nat) : list nat :=
  match s with
  | [] => []
  | d :: s' =>
      if Nat.eqb d 1 then 0%nat :: unsqueezed_index s' idx
      else match idx with
           | i :: idx' => i :: unsqueezed_index s' idx'
           | [] => []
           end
  end.

(** [.squeeze()] with no argument (line 44): drops every axis of size 1. *)
Definition squeeze {T : Type} (a : ndarray T) : ndarray T :=
  {| shape := filter (fun d => negb (Nat.eqb d 1)) (shape a);
     item := fun idx => item a (unsqueezed_index (shape a) idx) |}.

(** [x > y] on floats: false as soon as one side is a NaN. *)
Definition gt (x y : Float.float) : bool :=
  match x, y with
  | Float.Fin a, Float.Fin b => b <? a
  | Float.Inf false, Float.Fin _ => true
  | Float.Inf false, Float.Inf true => true
  | Float.Fin _, Float.Inf true => true
  | _, _ => false
  end.

(** A [torch.nn.Module]: whether it is in training mode, and its weights. *)
Record network (W : Type) : Type := {
  training : bool;
  state_dict : W
}.
Arguments training {W} _.
Arguments state_dict {W} _.

(** [net.eval()] (line 23). *)
Definition eval {W : Type} (net : network W) : network W :=
  {| training := false; state_dict := state_dict net |}.

Section Pipeline.

(** The element type of the input image and the type of the weights. *)
Variables (P W : Type).

(** The libraries the pipeline calls.  Their numerics are theirs; the
    program only moves their results around.  The elements of the float32
    arrays are given as the doubles they are equal to. *)

(** [cv2.resize(full_img, None, fx=s, fy=s, interpolation=cv2.INTER_CUBIC)]. *)
Variable cv2_resize : ndarray P -> Float.float -> result (ndarray P).
(** [np.array(img, dtype=np.float32)], on one element. *)
Variable as_float32 : P -> Float.float.
(** [x / n] for a float32 [x] and an int [n], on one element. *)
Variable true_divide : Float.float -> Z -> Float.float.
(** [net(x)]: the forward pass, a function of the module and the input. *)
Variable forward : network W -> ndarray Float.float -> result (ndarray Float.float).
(** The elements of the image that [ToPILImage], [Resize((h, w))] and
    [ToTensor] make of a tensor. *)
Variable resample : nat -> nat -> ndarray Float.float -> list nat -> Float.float.

(** [normalize] (lines 18-19). *)
Definition normalize (x : ndarray Float.float) : ndarray Float.float :=
  map_array (fun v => true_divide v 255) x.

(** [tf] (lines 35-41): [ToPILImage] takes a tensor of two or three axes,
    channels first; [Resize((height, width))] gives it that size;
    [ToTensor] returns it channels first. *)
Definition tf (height width : nat) (t : ndarray Float.float) : result (ndarray Float.float) :=
  match shape t with
  | [c; _; _] => Ok {| shape := [c; height; width]; item := resample height width t |}
  | [_; _] => Ok {| shape := [1%nat; height; width]; item := resample height width t |}
  | _ => Raise ValueError
  end.

(** Lines 24-44: the probability map at the native size, [mask_np]. *)
Definition probability_map (net : network W) (full_img : ndarray P)
    (scale_factor : Float.float) : result (ndarray Float.float) :=
  hwc <- unpack3 (shape full_img) ;;
  let '(height, width, channel) := hwc in
  img <- cv2_resize full_img scale_factor ;;
  let img := map_array as_float32 img in
  let img := normalize img in
  img <- transpose_201 img ;;
  let x := unsqueeze0 img in
  y <- forward net x ;;
  let proba := squeeze0 y in
  proba <- tf height width proba ;;
  Ok (squeeze proba).

(** [predict_img] (lines 22-46): the mask, or the exception raised, and
    the module as the call leaves it. *)
Definition predict_img (net : network W) (full_img : ndarray P)
    (scale_factor out_threshold : Float.float) : result (ndarray bool) * network W :=
  let net := eval net in
  (mask_np <- probability_map net full_img scale_factor ;;
   Ok (map_array (fun p => gt p out_threshold) mask_np),
   net).

End Pipeline.

(** *** Stand-ins for the libraries

    Enough to run the pipeline on small arrays: a resize that keeps the
    size ([scale_factor = 1.0]), a model that answers with one channel of
    zeros, a resampling to zeros. *)

Definition same_size (img : ndarray Z) (_ : Float.float) : result (ndarray Z) :=
  Ok img.

Definition zero_model (_ : network unit) (x : ndarray Float.float)
  : result (ndarray Float.float) :=
  match shape x with
  | [b; _; h; w] => Ok {| shape := [b; 1%nat; h; w]; item := fun _ => Float.Fin 0 |}
  | _ => Raise ExternalError
  end.

Definition zero_resample (_ _ : nat) (_ : ndarray Float.float) (_ : list nat)
  : Float.float := Float.Fin 0.

(** An image of zeros. *)
Definition black (s : list nat) : ndarray Z := {| shape := s; item := fun _ => 0 |}.

(** A module fresh from its constructor: in training mode. *)
Definition untrained : network unit := {| training := true; state_dict := tt |}.

(** [predict_img(net, img, scale_factor=1.0, out_threshold=thr)] with the
    stand-ins. *)
Definition toy_predict (img : ndarray Z) (thr : Float.float)
  : result (ndarray bool) * network unit :=
  predict_img Z unit same_size (fun z => Float.Fin (z * Float.one))
    (fun x _ => x) zero_model zero_resample
    untrained img (Float.Fin Float.one) thr.

End Predict.

(** ** The workflow ([load_model], lines 49-53, and [main], lines 93-131) *)

Module Main.
Import Monitor Predict.

(** [Job.RUNNING] and [Job.TERMINATED], the two statuses [main] sets. *)
Inductive job_status : Type :=
| RUNNING
| TERMINATED.

(** An input image as [prepare_data] lists it: [in_image.filepath] and
    [in_image.filename]. *)
Record image_ref : Type := {
  filepath : string;
  filename : string
}.

(** The six values [prepare_data] returns (line 99). *)
Record data : Type := {
  in_images : list image_ref;
  gt_images : list image_ref;
  in_path : string;
  gt_path : string;
  out_path : string;
  tmp_path : string
}.

(** What a run of [main] does to the outside, in the order in which it
    does it: the calls of [nj.job.update], of [imwrite], of [upload_data]
    and of [upload_metrics], with the arguments [main] chooses. *)
Inductive effect : Type :=
| Update (status : option job_status) (progress : Z) (statusComment : string)
| Imwrite (path : string) (image : ndarray Z)
| UploadData (images : list image_ref) (out : string)
    (monitor_start monitor_end : Z) (monitor_period : Float.float)
| UploadMetrics (images : list image_ref) (gt out tmp : string).

(** A run: the effects up to its end, and its result or the exception that
    ended it. *)
Definition run (A : Type) : Type := (list effect * result A)%type.

Definition ret {A : Type} (a : A) : run A := ([], Ok a).

Definition and_then {A B : Type} (r : run A) (k : A -> run B) : run B :=
  match r with
  | (t, Ok a) => let (t', b) := k a in (t ++ t', b)
  | (t, Raise e) => (t, Raise e)
  end.

(** An effect that takes place. *)
Definition emit (e : effect) : run unit := ([e], Ok tt).

(** A call that returns or raises and, as far as [main] is concerned, does
    nothing else. *)
Definition call {A : Type} (r : result A) : run A := ([], r).

Notation "x <~ r ;; k" := (and_then r (fun x => k))
  (at level 61, r at next level, right associativity).

(** [mask.astype(np.uint8)] (line 116): [True] is 1 and [False] is 0. *)
Definition astype_uint8 (mask : ndarray bool) : ndarray Z :=
  map_array (fun b : bool => if b then 1 else 0) mask.

(** The progress values of the calls of [nj.job.update] of a run. *)
Fixpoint progress_of (t : list effect) : list Z :=
  match t with
  | [] => []
  | Update _ p _ :: t' => p :: progress_of t'
  | _ :: t' => progress_of t'
  end.

(** The calls of [imwrite] of a run. *)
Fixpoint written (t : list effect) : list (string * ndarray Z) :=
  match t with
  | [] => []
  | Imwrite path image :: t' => (path, image) :: written t'
  | _ :: t' => written t'
  end.

(** Whether an effect sets the job to [TERMINATED]. *)
Definition terminates (e : effect) : bool :=
  match e with
  | Update (Some TERMINATED) _ _ => true
  | _ => false
  end.

Section Workflow.

(** The element type of the images read, the type of the weights and the
    type of the problem class. *)
Variables (P W C : Type).

(** The libraries of [predict_img]. *)
Variable cv2_resize : ndarray P -> Float.float -> result (ndarray P).
Variable as_float32 : P -> Float.float.
Variable true_divide : Float.float -> Z -> Float.float.
Variable forward : network W -> ndarray Float.float -> result (ndarray Float.float).
Variable resample : nat -> nat -> ndarray Float.float -> list nat -> Float.float.

(** [PSPNet(pretrained=...)], [net.cpu()],
    [torch.load(filepath, map_location='cpu')] and
    [net.load_state_dict(state)]: the calls of [load_model]. *)
Variable PSPNet : bool -> result (network W).
Variable cpu : network W -> result (network W).
Variable torch_load : string -> result W.
Variable load_state_dict : network W -> W -> result (network W).

(** The job and the helpers of [main]: [NeubiasJob.from_cli(argv)],
    [get_discipline(nj, default=CLASS_PIXCLA)], [prepare_data],
    [nj.parameters.threshold], [imread(path, is_2d=True)],
    [os.path.join], and whether the calls made for their effect return:
    [imwrite], [upload_data], [upload_metrics]. *)
Variable from_cli : list string -> result unit.
Variable get_discipline : result C.
Variable prepare_data : C -> result data.
Variable threshold : Float.float.
Variable imread : string -> result (ndarray P).
Variable path_join : string -> string -> string.
Variable imwrite : string -> ndarray Z -> result unit.
Variable upload_data : C -> list image_ref -> string -> result unit.
Variable upload_metrics : C -> list image_ref -> string -> string -> string -> result unit.

(** [load_model] (lines 49-53). *)
Definition load_model (filepath : string) : result (network W) :=
  net <- PSPNet false ;;
  net <- cpu net ;;
  state <- torch_load filepath ;;
  load_state_dict net state.

(** Lines 106-118, the body of the loop for one input.  The module is the
    one object throughout: each call of [predict_img] gets it as the call
    before left it. *)
Definition process (d : data) (net : network W) (in_image : image_ref)
  : run (network W) :=
  img <~ call (imread (filepath in_image)) ;;
  let (mask, net) :=
    predict_img P W cv2_resize as_float32 true_divide forward resample
      net img (Float.literal 5 10) threshold in
  mask <~ call mask ;;
  let path := path_join (out_path d) (filename in_image) in
  let image := astype_uint8 mask in
  _ <~ emit (Imwrite path image) ;;
  _ <~ call (imwrite path image) ;;
  ret net.

(** The consumer of the generator of line 105: a report of the monitor
    goes to the job, an element it yields goes through the body. *)
Fixpoint for_each (d : data) (net : network W) (evs : list (event image_ref))
  : run (network W) :=
  match evs with
  | [] => ret net
  | JobUpdate p c :: evs' =>
      _ <~ emit (Update None p c) ;;
      for_each d net evs'
  | Yield in_image :: evs' =>
      net <~ process d net in_image ;;
      for_each d net evs'
  end.

(** Lines 105-118: the loop over the monitor; an exception of the monitor
    ends it after the elements yielded before. *)
Definition monitored_loop (d : data) (net : network W) : run (network W) :=
  let o := __iter__ (main_monitor (in_images d)) in
  net <~ for_each d net (trace o) ;;
  match raised o with
  | Some e => call (Raise e)
  | None => ret net
  end.

(** [main] (lines 93-131). *)
Definition main (argv : list string) : run unit :=
  _ <~ call (from_cli argv) ;;
  problem_cls <~ call get_discipline ;;
  _ <~ emit (Update (Some RUNNING) 0 "Initialisation...") ;;
  d <~ call (prepare_data problem_cls) ;;
  _ <~ emit (Update None 10 "Load model...") ;;
  net <~ call (load_model "/app/model.pth") ;;
  _ <~ monitored_loop d net ;;
  _ <~ emit (Update None 70 "Uploading extracted annotation...") ;;
  _ <~ emit (UploadData (in_images d) (out_path d) 70 90 (Float.literal 1 10)) ;;
  _ <~ call (upload_data problem_cls (in_images d) (out_path d)) ;;
  _ <~ emit (Update None 90 "Computing and uploading metrics (if necessary)...") ;;
  _ <~ emit (UploadMetrics (in_images d) (gt_path d) (out_path d) (tmp_path d)) ;;
  _ <~ call (upload_metrics problem_cls (in_images d) (gt_path d) (out_path d) (tmp_path d)) ;;
  emit (Update (Some TERMINATED) 100 "Finished.").

(** The effects of [main] before the loop and after it. *)
Definition prologue : list effect :=
  [Update (Some RUNNING) 0 "Initialisation..."; Update None 10 "Load model..."].

Definition epilogue (d : data) : list effect :=
  [Update None 70 "Uploading extracted annotation...";
   UploadData (in_images d) (out_path d) 70 90 (Float.literal 1 10);
   Update None 90 "Computing and uploading metrics (if necessary)...";
   UploadMetrics (in_images d) (gt_path d) (out_path d) (tmp_path d);
   Update (Some TERMINATED) 100 "Finished."].

End Workflow.

(** *** A workflow to run

    [main] with the stand-ins of the pipeline, libraries that return, and
    [n] inputs that all read as a black 4 x 5 colour image. *)

Definition toy_data (n : nat) : data :=
  {| in_images := repeat {| filepath := "in/a.png"; filename := "a.png" |} n;
     gt_images := [];
     in_path := "in";
     gt_path := "gt";
     out_path := "out";
     tmp_path := "tmp" |}.

Notation toy_main n :=
  (main Z unit unit
    same_size (fun z => Float.Fin (z * Float.one)) (fun x _ => x)
    zero_model zero_resample
    (fun _ => Ok untrained) (fun net => Ok net) (fun _ => Ok tt) (fun net _ => Ok net)
    (fun _ => Ok tt) (Ok tt) (fun _ => Ok (toy_data n))
    (Float.Fin 0) (fun _ => Ok (black [4; 5; 3]%nat))
    (fun a b => (a ++ "/" ++ b)%string)
    (fun _ _ => Ok tt) (fun _ _ _ => Ok tt) (fun _ _ _ _ _ => Ok tt)
    []).

End Main.

(** * Proofs *)

(** ** Rounding to a double *)

Module FloatFacts.
Import Float.

Lemma bind_ok {A B : Type} (a : A) (k : A -> result B) : bind (Ok a) k = k a.
Proof. reflexivity. Qed.

Lemma div_mod_split (n d : Z) : 0 < d -> n = d * (n / d) + n mod d /\ 0 <= n mod d < d.
Proof.
  intros Hd. split.
  - apply Z.div_mod. lia.
  - apply Z.mod_pos_bound. exact Hd.
Qed.

Lemma rhe_cases (n d : Z) :
  0 < d -> round_half_even n d = n / d \/ round_half_even n d = n / d + 1.
Proof.
  intros _. unfold round_half_even.
  destruct (2 * (n mod d) ?= d); [destruct (Z.even (n / d))|..]; auto.
Qed.

Lemma rhe_exact (k d : Z) : 0 < d -> round_half_even (k * d) d = k.
Proof.
  intros Hd. unfold round_half_even.
  rewrite Z.div_mul by lia. rewrite Z.mod_mul by lia.
  replace (2 * 0) with 0 by reflexivity.
  destruct (Z.compare_spec 0 d); try lia; reflexivity.
Qed.

Lemma div_le_cross (n d n' d' : Z) :
  0 < d -> 0 < d' -> n * d' <= n' * d -> n / d <= n' / d'.
Proof.
  intros Hd Hd' H.
  apply Z.div_le_lower_bound; [exact Hd'|].
  destruct (div_mod_split n d Hd) as [E B].
  assert (d * (d' * (n / d)) <= d * n') by nia.
  apply Z.mul_le_mono_pos_l in H0; lia.
Qed.

Lemma rhe_monotone (n d n' d' : Z) :
  0 < d -> 0 < d' -> n * d' <= n' * d ->
  round_half_even n d <= round_half_even n' d'.
Proof.
  intros Hd Hd' H.
  pose proof (div_le_cross n d n' d' Hd Hd' H) as Hq.
  destruct (div_mod_split n d Hd) as [E B].
  destruct (div_mod_split n' d' Hd') as [E' B'].
  destruct (Z.eq_dec (n / d) (n' / d')) as [Heq | Hne].
  - unfold round_half_even.
    set (q := n / d) in *. set (r := n mod d) in *.
    set (q' := n' / d') in *. set (r' := n' mod d') in *.
    assert (Hr : r * d' <= r' * d) by (subst q'; nia).
    rewrite <- Heq.
    destruct (Z.compare_spec (2 * r) d), (Z.compare_spec (2 * r') d');
      try destruct (Z.even q); try lia; nia.
  - destruct (rhe_cases n d Hd), (rhe_cases n' d' Hd'); lia.
Qed.

Lemma rhe_scale (n d c : Z) :
  0 < d -> 0 < c -> round_half_even (n * c) (d * c) = round_half_even n d.
Proof.
  intros Hd Hc. unfold round_half_even.
  rewrite Z.div_mul_cancel_r by lia.
  rewrite Z.mul_mod_distr_r by lia.
  replace (2 * (n mod d * c) ?= d * c) with (2 * (n mod d) ?= d); [reflexivity|].
  destruct (Z.compare_spec (2 * (n mod d)) d), (Z.compare_spec (2 * (n mod d * c)) (d * c));
    try reflexivity; nia.
Qed.

Lemma rhe_nonneg (n d : Z) : 0 <= n -> 0 < d -> 0 <= round_half_even n d.
Proof.
  intros Hn Hd. pose proof (Z.div_pos n d Hn Hd).
  destruct (rhe_cases n d Hd); lia.
Qed.

Lemma shift_nonneg (n d : Z) : 0 <= shift n d.
Proof. unfold shift. lia. Qed.

Lemma shift_monotone (n d n' d' : Z) :
  0 < d -> 0 < d' -> n * d' <= n' * d -> shift n d <= shift n' d'.
Proof.
  intros Hd Hd' H. unfold shift.
  pose proof (Z.log2_le_mono _ _ (div_le_cross n d n' d' Hd Hd' H)). lia.
Qed.

Lemma pow2_pos (s : Z) : 0 <= s -> 0 < 2 ^ s.
Proof. intros. apply Z.pow_pos_nonneg; lia. Qed.

Lemma div_lt_pow2 (q s : Z) : 0 <= q -> Z.log2 q <= s -> q < 2 ^ (s + 1).
Proof.
  intros Hq Hs.
  destruct (Z.eq_dec q 0) as [->|Hne].
  - apply pow2_pos. pose proof (Z.log2_nonneg 0). lia.
  - destruct (Z.log2_spec q) as [_ Hlt]; [lia|].
    eapply Z.lt_le_trans; [exact Hlt|].
    apply Z.pow_le_mono_r; lia.
Qed.

Lemma round_pos_upper (n d : Z) :
  0 <= n -> 0 < d -> round_pos n d <= 2 ^ 53 * 2 ^ shift n d.
Proof.
  intros Hn Hd. unfold round_pos. cbv zeta.
  pose proof (shift_nonneg n d) as Hs.
  pose proof (pow2_pos _ Hs) as Hp.
  apply Z.mul_le_mono_nonneg_r; [lia|].
  assert (Hq : n / d < 2 ^ (52 + shift n d + 1)).
  { apply div_lt_pow2; [apply Z.div_pos; lia|]. unfold shift. lia. }
  replace (52 + shift n d + 1) with (53 + shift n d) in Hq by lia.
  rewrite Z.pow_add_r in Hq by lia.
  destruct (div_mod_split n d Hd) as [E B].
  assert (Hlt : n < d * (2 ^ 53 * 2 ^ shift n d)) by nia.
  assert (HD : 0 < d * 2 ^ shift n d) by nia.
  pose proof (rhe_monotone n (d * 2 ^ shift n d) (2 ^ 53 * (d * 2 ^ shift n d))
                (d * 2 ^ shift n d) HD HD ltac:(nia)) as Hm.
  rewrite rhe_exact in Hm by exact HD. exact Hm.
Qed.

Lemma round_pos_lower (n d : Z) :
  0 <= n -> 0 < d -> 0 < shift n d -> 2 ^ 52 * 2 ^ shift n d <= round_pos n d.
Proof.
  intros Hn Hd Hs.
  assert (Hl : Z.log2 (n / d) = 52 + shift n d) by (unfold shift in *; lia).
  unfold round_pos. cbv zeta.
  pose proof (pow2_pos (shift n d) ltac:(lia)) as Hp.
  apply Z.mul_le_mono_nonneg_r; [lia|].
  assert (HD : 0 < d * 2 ^ shift n d) by nia.
  rewrite <- (rhe_exact (2 ^ 52) (d * 2 ^ shift n d) HD) at 1.
  apply rhe_monotone; try nia.
  assert (Hq0 : 0 < n / d).
  { destruct (Z.eq_dec (n / d) 0) as [E0|]; [rewrite E0 in Hl; change (Z.log2 0) with 0 in Hl; lia|].
    pose proof (Z.div_pos n d Hn Hd). lia. }
  destruct (Z.log2_spec (n / d) Hq0) as [Hge _].
  rewrite Hl, Z.pow_add_r in Hge by lia.
  destruct (div_mod_split n d Hd) as [E B].
  assert (2 ^ 52 * (d * 2 ^ shift n d) <= n) by nia.
  apply Z.mul_le_mono_nonneg_r; lia.
Qed.

Lemma round_pos_nonneg (n d : Z) : 0 <= n -> 0 < d -> 0 <= round_pos n d.
Proof.
  intros Hn Hd. unfold round_pos. cbv zeta.
  pose proof (pow2_pos _ (shift_nonneg n d)).
  pose proof (rhe_nonneg n (d * 2 ^ shift n d) Hn ltac:(nia)). nia.
Qed.

Lemma round_pos_monotone (n d n' d' : Z) :
  0 <= n -> 0 < d -> 0 < d' -> n * d' <= n' * d ->
  round_pos n d <= round_pos n' d'.
Proof.
  intros Hn Hd Hd' H.
  assert (Hn' : 0 <= n') by nia.
  pose proof (shift_monotone n d n' d' Hd Hd' H) as Hs.
  pose proof (shift_nonneg n d) as Hs0.
  destruct (Z.eq_dec (shift n d) (shift n' d')) as [E | NE].
  - unfold round_pos. cbv zeta. rewrite <- E.
    pose proof (pow2_pos _ Hs0) as Hp.
    apply Z.mul_le_mono_nonneg_r; [lia|].
    apply rhe_monotone; nia.
  - eapply Z.le_trans; [apply round_pos_upper; assumption|].
    eapply Z.le_trans; [|apply round_pos_lower; try assumption; lia].
    replace (shift n' d') with (shift n d + 1 + (shift n' d' - shift n d - 1)) by lia.
    rewrite !Z.pow_add_r by lia.
    pose proof (pow2_pos _ Hs0).
    pose proof (pow2_pos (shift n' d' - shift n d - 1) ltac:(lia)).
    change (2 ^ 53) with (2 ^ 52 * 2). change (2 ^ 1) with 2.
    assert (0 < 2 ^ 52) by (apply pow2_pos; lia).
    nia.
Qed.

Lemma round_pos_scale (n d c : Z) :
  0 < d -> 0 < c -> round_pos (n * c) (d * c) = round_pos n d.
Proof.
  intros Hd Hc. unfold round_pos, shift. cbv zeta.
  rewrite Z.div_mul_cancel_r by lia.
  set (s := Z.max 0 (Z.log2 (n / d) - 52)).
  assert (0 < 2 ^ s) by (apply pow2_pos; subst s; lia).
  replace (d * c * 2 ^ s) with (d * 2 ^ s * c) by ring.
  rewrite rhe_scale by nia. reflexivity.
Qed.

Lemma round_pos_exact (k d : Z) :
  0 <= k -> 0 < d -> representable k -> round_pos (k * d) d = k.
Proof.
  intros Hk Hd R. unfold representable in R. rewrite Z.abs_eq in R by lia.
  unfold round_pos. cbv zeta.
  assert (Es : shift (k * d) d = shift k 1).
  { unfold shift. rewrite Z.div_mul by lia. rewrite Z.div_1_r. reflexivity. }
  rewrite Es.
  pose proof (pow2_pos _ (shift_nonneg k 1)) as Hp.
  apply Z.mod_divide in R; [|lia]. destruct R as [m Em].
  rewrite Em at 1.
  replace (m * 2 ^ shift k 1 * d) with (m * (d * 2 ^ shift k 1)) by ring.
  rewrite rhe_exact by nia. lia.
Qed.

Lemma representable_pow2_mul (m t : Z) :
  0 <= m <= 2 ^ 53 -> 0 <= t -> representable (m * 2 ^ t).
Proof.
  intros Hm Ht. unfold representable.
  pose proof (pow2_pos t Ht) as Hp.
  rewrite Z.abs_eq by nia.
  destruct (Z.eq_dec m 0) as [->|Hm0]; [rewrite Z.mul_0_l; apply Z.mod_0_l; pose proof (pow2_pos _ (shift_nonneg 0 1)); lia|].
  assert (Es : shift (m * 2 ^ t) 1 = Z.max 0 (Z.log2 m + t - 52)).
  { unfold shift. rewrite Z.div_1_r. rewrite Z.log2_mul_pow2 by lia. f_equal. lia. }
  rewrite Es.
  destruct (Z.eq_dec m (2 ^ 53)) as [->|Hne].
  - rewrite Z.log2_pow2 by lia.
    rewrite Z.max_r by lia.
    replace (2 ^ 53 * 2 ^ t) with (2 ^ 52 * 2 ^ (53 + t - 52)).
    + apply Z.mod_mul. pose proof (pow2_pos (53 + t - 52) ltac:(lia)). lia.
    + rewrite <- !Z.pow_add_r by lia. f_equal. lia.
  - assert (Hl : Z.log2 m <= 52).
    { assert (Z.log2 m < 53); [|lia]. apply Z.log2_lt_pow2; lia. }
    set (s := Z.max 0 (Z.log2 m + t - 52)).
    assert (Hst : 0 <= s <= t) by (subst s; pose proof (Z.log2_nonneg m); lia).
    replace t with ((t - s) + s) by lia.
    rewrite Z.pow_add_r by lia. rewrite Z.mul_assoc.
    apply Z.mod_mul. pose proof (pow2_pos s ltac:(lia)). lia.
Qed.

Lemma round_pos_pow2 (n d t : Z) :
  0 < d -> 0 <= t -> 2 ^ 52 <= n / d ->
  round_pos (n * 2 ^ t) d = round_pos n d * 2 ^ t.
Proof.
  intros Hd Ht Hq.
  assert (H52 : 0 < 2 ^ 52) by (apply pow2_pos; lia).
  assert (Hq0 : 0 < n / d) by lia.
  pose proof (pow2_pos t Ht) as Hp.
  destruct (Z.log2_spec (n / d) Hq0) as [Hlo Hhi].
  set (L := Z.log2 (n / d)) in *.
  assert (HL : 52 <= L) by (apply Z.log2_le_pow2; lia).
  destruct (div_mod_split n d Hd) as [E B].
  assert (El : Z.log2 (n * 2 ^ t / d) = L + t).
  { apply Z.log2_unique; [lia|]. split.
    - apply Z.div_le_lower_bound; [lia|]. rewrite Z.pow_add_r by lia.
      assert (d * 2 ^ L <= n) by nia.
      rewrite Z.mul_assoc. apply Z.mul_le_mono_nonneg_r; lia.
    - apply Z.div_lt_upper_bound; [lia|].
      replace (Z.succ (L + t)) with (Z.succ L + t) by lia.
      rewrite Z.pow_add_r by lia.
      assert (n < d * 2 ^ Z.succ L) by nia.
      rewrite Z.mul_assoc. apply Z.mul_lt_mono_pos_r; lia. }
  unfold round_pos, shift. cbv zeta. rewrite El. fold L.
  rewrite !Z.max_r by lia.
  replace (L + t - 52) with (L - 52 + t) by lia.
  rewrite Z.pow_add_r by lia.
  pose proof (pow2_pos (L - 52) ltac:(lia)).
  replace (d * (2 ^ (L - 52) * 2 ^ t)) with (d * 2 ^ (L - 52) * 2 ^ t) by ring.
  rewrite rhe_scale by nia. ring.
Qed.

Lemma round_pos_zero (d : Z) : 0 < d -> round_pos 0 d = 0.
Proof.
  intros Hd.
  replace 0 with (0 * d) at 1 by reflexivity.
  apply round_pos_exact; [lia | exact Hd |].
  unfold representable. apply Z.mod_0_l.
  pose proof (pow2_pos _ (shift_nonneg (Z.abs 0) 1)). lia.
Qed.

Lemma round_nonneg_eq (n d : Z) : 0 <= n -> 0 < d -> round n d = round_pos n d.
Proof.
  intros Hn Hd. unfold round.
  destruct (Z.eq_dec n 0) as [->|Hne].
  - change (Z.abs 0) with 0. rewrite !round_pos_zero by exact Hd. reflexivity.
  - rewrite Z.sgn_pos by lia. rewrite Z.abs_eq by lia. lia.
Qed.

Lemma round_opp (n d : Z) : round (- n) d = - round n d.
Proof. unfold round. rewrite Z.sgn_opp, Z.abs_opp. ring. Qed.

Lemma round_nonneg (n d : Z) : 0 <= n -> 0 < d -> 0 <= round n d.
Proof.
  intros Hn Hd. rewrite round_nonneg_eq by assumption.
  apply round_pos_nonneg; assumption.
Qed.

Lemma round_monotone (n d n' d' : Z) :
  0 < d -> 0 < d' -> n * d' <= n' * d -> round n d <= round n' d'.
Proof.
  intros Hd Hd' H.
  destruct (Z.le_gt_cases 0 n) as [Hn | Hn].
  - assert (0 <= n') by nia.
    rewrite !round_nonneg_eq by assumption.
    apply round_pos_monotone; assumption.
  - destruct (Z.le_gt_cases 0 n') as [Hn' | Hn'].
    + pose proof (round_nonneg n' d' Hn' Hd').
      pose proof (round_nonneg (- n) d ltac:(lia) Hd) as Hm.
      rewrite round_opp in Hm. lia.
    + pose proof (round_pos_monotone (- n') d' (- n) d ltac:(lia) Hd' Hd ltac:(nia)) as Hm.
      rewrite <- !round_nonneg_eq in Hm by lia.
      rewrite !round_opp in Hm. lia.
Qed.

Lemma representable_opp (k : Z) : representable k -> representable (- k).
Proof. unfold representable. rewrite Z.abs_opp. auto. Qed.

Lemma round_exact (k d : Z) : 0 < d -> representable k -> round (k * d) d = k.
Proof.
  intros Hd R.
  destruct (Z.le_gt_cases 0 k) as [Hk | Hk].
  - rewrite round_nonneg_eq by nia. apply round_pos_exact; assumption.
  - replace (k * d) with (- (- k * d)) by ring.
    rewrite round_opp, round_nonneg_eq by nia.
    rewrite round_pos_exact; [lia | lia | exact Hd | apply representable_opp; exact R].
Qed.

Lemma round_scale (n d c : Z) :
  0 < d -> 0 < c -> round (n * c) (d * c) = round n d.
Proof.
  intros Hd Hc. unfold round.
  rewrite Z.sgn_mul, (Z.sgn_pos c), Z.mul_1_r by lia.
  rewrite Z.abs_mul, (Z.abs_eq c) by lia.
  rewrite round_pos_scale by assumption. reflexivity.
Qed.

Lemma round_pow2 (n d t : Z) :
  0 < d -> 0 <= t -> 2 ^ 52 <= Z.abs n / d ->
  round (n * 2 ^ t) d = round n d * 2 ^ t.
Proof.
  intros Hd Ht Hq. unfold round.
  pose proof (pow2_pos t Ht).
  rewrite Z.sgn_mul, (Z.sgn_pos (2 ^ t)), Z.mul_1_r by lia.
  rewrite Z.abs_mul, (Z.abs_eq (2 ^ t)) by lia.
  rewrite round_pos_pow2 by assumption. ring.
Qed.

Lemma round_abs_le (n d b : Z) :
  0 < d -> 0 <= b -> representable b -> Z.abs n <= b * d -> Z.abs (round n d) <= b.
Proof.
  intros Hd Hb R H.
  pose proof (round_monotone n d (b * d) d Hd Hd ltac:(nia)) as Hu.
  pose proof (round_monotone (- b * d) d n d Hd Hd ltac:(nia)) as Hl.
  rewrite round_exact in Hu by assumption.
  rewrite round_exact in Hl by (try apply representable_opp; assumption).
  lia.
Qed.

(** Doubles that are integers, or powers of two times [one]. *)
Lemma representable_int (n : Z) : Z.abs n <= 2 ^ 53 -> representable (n * one).
Proof.
  intros H. unfold one.
  destruct (Z.le_gt_cases 0 n).
  - apply representable_pow2_mul; lia.
  - replace (n * 2 ^ 1074) with (- (- n * 2 ^ 1074)) by ring.
    apply representable_opp, representable_pow2_mul; lia.
Qed.

Lemma representable_pow2 (t : Z) : 0 <= t -> representable (2 ^ t).
Proof.
  intros Ht. replace (2 ^ t) with (1 * 2 ^ t) by ring.
  apply representable_pow2_mul; [|exact Ht].
  pose proof (pow2_pos 53 ltac:(lia)). lia.
Qed.

Lemma one_pos : 0 < one.
Proof. apply pow2_pos. lia. Qed.

Lemma finish_fin (k : Z) : Z.abs k < overflow_threshold -> finish k = Fin k.
Proof.
  intros H. unfold finish.
  destruct (Z.leb_spec overflow_threshold (Z.abs k)); [lia | reflexivity].
Qed.

Lemma finish_bounded (k t : Z) :
  0 <= t < 2098 -> Z.abs k <= 2 ^ t -> finish k = Fin k.
Proof.
  intros Ht H. apply finish_fin. unfold overflow_threshold.
  eapply Z.le_lt_trans; [exact H|].
  apply Z.pow_lt_mono_r; lia.
Qed.

Lemma round_le (n d b : Z) :
  0 < d -> representable b -> n <= b * d -> round n d <= b.
Proof.
  intros Hd R H. rewrite <- (round_exact b d Hd R).
  apply round_monotone; nia.
Qed.

Lemma round_ge (n d b : Z) :
  0 < d -> representable b -> b * d <= n -> b <= round n d.
Proof.
  intros Hd R H. rewrite <- (round_exact b d Hd R).
  apply round_monotone; nia.
Qed.

Lemma fl_monotone (a b : Z) : a <= b -> fl a <= fl b.
Proof.
  intros H. unfold fl. apply round_monotone; try lia.
  pose proof one_pos. nia.
Qed.

Lemma fl_exact (n : Z) : Z.abs n <= 2 ^ 53 -> fl n = n * one.
Proof.
  intros H. unfold fl.
  rewrite <- (Z.mul_1_r (n * one)) at 1.
  apply round_exact; [lia | apply representable_int; exact H].
Qed.

Lemma fl_0 : fl 0 = 0.
Proof. rewrite fl_exact; [reflexivity|]. pose proof (pow2_pos 53). simpl Z.abs. lia. Qed.

Lemma fl_1 : fl 1 = one.
Proof.
  rewrite fl_exact; [lia|]. pose proof (pow2_pos 53).
  change (Z.abs 1) with 1. lia.
Qed.

Lemma fl_nonneg (n : Z) : 0 <= n -> 0 <= fl n.
Proof. intros H. rewrite <- fl_0. apply fl_monotone. exact H. Qed.

Lemma fl_ge_one (n : Z) : 1 <= n -> one <= fl n.
Proof. intros H. rewrite <- fl_1. apply fl_monotone. exact H. Qed.

Lemma pow2_one (t : Z) : 0 <= t -> 2 ^ t * one = 2 ^ (t + 1074).
Proof. intros H. unfold one. rewrite Z.pow_add_r by lia. reflexivity. Qed.

Lemma fl_abs_le (n t : Z) : 0 <= t -> Z.abs n <= 2 ^ t -> Z.abs (fl n) <= 2 ^ t * one.
Proof.
  intros Ht H. unfold fl.
  pose proof one_pos. pose proof (pow2_pos t Ht).
  apply round_abs_le; [lia | nia | | ].
  - rewrite pow2_one by lia. apply representable_pow2. lia.
  - rewrite Z.abs_mul, (Z.abs_eq one) by lia. nia.
Qed.

Lemma finish_scaled (k t : Z) :
  0 <= t < 1024 -> Z.abs k <= 2 ^ t * one -> finish k = Fin k.
Proof.
  intros Ht H. apply (finish_bounded k (t + 1074)); [lia|].
  rewrite <- pow2_one by lia. exact H.
Qed.

Lemma of_int_fin (n t : Z) :
  0 <= t < 1024 -> Z.abs n <= 2 ^ t -> of_int n = Ok (Fin (fl n)).
Proof.
  intros Ht H. unfold of_int. fold (fl n).
  rewrite (finish_scaled (fl n) t Ht); [reflexivity|].
  apply fl_abs_le; [lia | exact H].
Qed.

End FloatFacts.

(** ** The progress monitor *)

Module MonitorFacts.
Import Float Monitor FloatFacts.

Lemma representable_one : representable one.
Proof. unfold one. apply representable_pow2. lia. Qed.

Lemma representable_scaled (t : Z) : 0 <= t -> representable (2 ^ t * one).
Proof. intros. rewrite pow2_one by lia. apply representable_pow2. lia. Qed.

Lemma is_zero_fin (k : Z) : k <> 0 -> is_zero (Fin k) = false.
Proof. destruct k; simpl; congruence. Qed.

Lemma ratio_bounds (i n : Z) :
  0 <= i <= n -> 1 <= n -> 0 <= ratio_units i n <= one.
Proof.
  intros Hi Hn. unfold ratio_units.
  pose proof one_pos as H1.
  pose proof (fl_ge_one n Hn) as Hfn.
  pose proof (fl_nonneg i ltac:(lia)) as Hfi.
  pose proof (fl_monotone i n ltac:(lia)) as Hle.
  split.
  - apply round_nonneg; nia.
  - rewrite <- (round_exact one (fl n)) at 2 by (try apply representable_one; lia).
    apply round_monotone; [lia | lia |].
    apply Z.mul_le_mono_nonneg_r; nia.
Qed.

Lemma true_div_fin (i n : Z) :
  0 <= i <= n -> 1 <= n <= 2 ^ 1000 ->
  true_div i n = Ok (Fin (ratio_units i n)).
Proof.
  intros Hi Hn. unfold true_div.
  rewrite (of_int_fin n 1000) by lia. cbn [bind].
  rewrite (of_int_fin i 1000) by lia. cbn [bind].
  pose proof one_pos as H1.
  pose proof (fl_ge_one n ltac:(lia)) as Hfn.
  unfold div. rewrite is_zero_fin by lia.
  unfold round_quot.
  destruct (Z.ltb_spec 0 (fl n)); [|lia].
  fold (ratio_units i n).
  pose proof (ratio_bounds i n Hi ltac:(lia)).
  rewrite (finish_scaled _ 0); [reflexivity | lia |].
  change (2 ^ 0) with 1. lia.
Qed.

Lemma mul_fin (a b t : Z) :
  0 <= t < 1024 -> Z.abs a <= 2 ^ t * one -> Z.abs b <= one ->
  mul (Fin a) (Fin b) = Fin (round (a * b) one) /\
  Z.abs (round (a * b) one) <= 2 ^ t * one.
Proof.
  intros Ht Ha Hb. pose proof one_pos as H1.
  pose proof (pow2_pos t ltac:(lia)) as Hp.
  assert (Hr : Z.abs (round (a * b) one) <= 2 ^ t * one).
  { apply round_abs_le; [lia | nia | apply representable_scaled; lia |].
    rewrite Z.abs_mul.
    pose proof (Z.abs_nonneg a). pose proof (Z.abs_nonneg b). nia. }
  split; [|exact Hr].
  unfold mul. apply (finish_scaled _ t); assumption.
Qed.

Lemma add_fin (a b t : Z) :
  0 <= t < 1023 -> Z.abs a <= 2 ^ t * one -> Z.abs b <= 2 ^ t * one ->
  add (Fin a) (Fin b) = Fin (round (a + b) 1).
Proof.
  intros Ht Ha Hb. pose proof one_pos as H1.
  pose proof (pow2_pos t ltac:(lia)) as Hp.
  unfold add. apply (finish_scaled _ (t + 1)); [lia|].
  apply round_abs_le; [lia | | apply representable_scaled; lia |].
  - pose proof (pow2_pos (t + 1) ltac:(lia)). nia.
  - rewrite Z.pow_add_r by lia. change (2 ^ 1) with 2. lia.
Qed.

Section Facts.
Context {A : Type}.
Implicit Types (m : Monitor A) (l : list A).

Lemma relative_progress_fin m (r : Z) :
  float_safe (_start m) -> float_safe (_end m) -> 0 <= r <= one ->
  _relative_progress m (Fin r)
  = Ok (Z.quot (progress_units (_start m) (_end m) r) one).
Proof.
  unfold float_safe. intros Hs He Hr. unfold _relative_progress.
  pose proof one_pos as H1.
  assert (H2 : 2 ^ 1001 = 2 ^ 1000 * 2).
  { change 1001 with (1000 + 1). rewrite Z.pow_add_r by lia. reflexivity. }
  assert (Hp : 0 < 2 ^ 1000) by (apply pow2_pos; lia).
  assert (Hd : Z.abs (_end m - _start m) <= 2 ^ 1001) by lia.
  rewrite (of_int_fin _ 1001) by (try exact Hd; lia). cbn [bind].
  rewrite (of_int_fin _ 1000) by (try exact Hs; lia). cbn [bind].
  destruct (mul_fin (fl (_end m - _start m)) r 1001) as [Em Bm];
    [lia | apply fl_abs_le; [lia | exact Hd] | lia |].
  rewrite Em.
  rewrite (add_fin _ _ 1001); [reflexivity | lia | | exact Bm].
  pose proof (fl_abs_le (_start m) 1000 ltac:(lia) Hs). nia.
Qed.

Lemma get_period_ok m (n : Z) :
  valid_period (_update_period m) -> 0 <= n <= 2 ^ 1000 ->
  _get_period m n = Ok (period_of m n).
Proof.
  intros Hv Hn. unfold _get_period, period_of.
  destruct (_update_period m) as [|p|[k|s|]]; simpl in Hv; try reflexivity; try contradiction.
  rewrite (of_int_fin n 1000) by lia. cbn [bind].
  pose proof one_pos as H1.
  destruct (mul_fin (fl n) k 1000) as [Em _];
    [lia | apply fl_abs_le; lia | lia |].
  unfold mul in *. rewrite Z.mul_comm, Em. reflexivity.
Qed.

Lemma period_of_nonzero m (n p : Z) :
  valid_period (_update_period m) -> period_of m n = Some p -> 1 <= p.
Proof.
  unfold period_of. intros Hv.
  destruct (_update_period m) as [|q|[k|s|]]; simpl in Hv; intros E; inversion E; lia.
Qed.

Lemma is_due_ok m (n i : Z) :
  valid_period (_update_period m) ->
  is_due (period_of m n) i = Ok (due m n i).
Proof.
  intros Hv. unfold is_due, due.
  destruct (period_of m n) as [p|] eqn:E; [|reflexivity].
  pose proof (period_of_nonzero m n p Hv E).
  destruct (Z.eqb_spec p 0); [lia | reflexivity].
Qed.

Lemma before_yield_ok m (n i : Z) :
  valid_period (_update_period m) ->
  float_safe (_start m) -> float_safe (_end m) ->
  0 <= i < n -> n <= 2 ^ 1000 ->
  before_yield m n i = Ok (report m n i).
Proof.
  intros Hv Hs He Hi Hn. unfold before_yield, report.
  rewrite get_period_ok by (try assumption; lia). cbn [bind].
  rewrite is_due_ok by assumption. cbn [bind].
  destruct (due m n i); [|reflexivity].
  rewrite true_div_fin by lia. cbn [bind].
  rewrite relative_progress_fin by (try assumption; apply ratio_bounds; lia).
  reflexivity.
Qed.

Lemma loop_ok m (n : Z) (items : list A) (i : Z) :
  valid_period (_update_period m) ->
  float_safe (_start m) -> float_safe (_end m) ->
  0 <= i -> i + len items <= n -> n <= 2 ^ 1000 ->
  loop m n i items = {| trace := expected m n i items; raised := None |}.
Proof.
  intros Hv Hs He. revert i.
  induction items as [|v rest IH]; intros i Hi Hlen Hn; [reflexivity|].
  unfold len in Hlen. cbn [List.length] in Hlen. rewrite Nat2Z.inj_succ in Hlen.
  pose proof (Zle_0_nat (List.length rest)).
  simpl. rewrite before_yield_ok by (try assumption; lia).
  rewrite IH by (unfold len; lia). reflexivity.
Qed.

Lemma iter_sequence m l :
  _iterable m = Sequence l ->
  valid_period (_update_period m) ->
  float_safe (_start m) -> float_safe (_end m) ->
  len l <= 2 ^ 1000 ->
  __iter__ m = {| trace := expected m (len l) 0 l; raised := None |}.
Proof.
  intros E Hv Hs He Hn. unfold __iter__. rewrite E. simpl.
  apply loop_ok; try assumption; lia.
Qed.

End Facts.

Lemma sys_maxsize_safe (n : Z) : n <= sys_maxsize -> n <= 2 ^ 1000.
Proof.
  unfold sys_maxsize. intros H.
  assert (2 ^ 63 <= 2 ^ 1000) by (apply Z.pow_le_mono_r; lia). lia.
Qed.

Section Traces.
Context {A : Type}.
Implicit Types (m : Monitor A) (l : list A).

Lemma yielded_app (tr1 tr2 : list (event A)) :
  yielded (tr1 ++ tr2) = yielded tr1 ++ yielded tr2.
Proof.
  induction tr1 as [|[p c|v] tr1 IH]; simpl; [reflexivity | exact IH | now rewrite IH].
Qed.

Lemma updates_app (tr1 tr2 : list (event A)) :
  updates (tr1 ++ tr2) = updates tr1 ++ updates tr2.
Proof.
  induction tr1 as [|[p c|v] tr1 IH]; simpl; [reflexivity | now rewrite IH | exact IH].
Qed.

Lemma yielded_report m n i : yielded (report m n i) = [].
Proof. unfold report. destruct (due m n i); reflexivity. Qed.

Lemma updates_report m n i : updates (report m n i) = calls m n i.
Proof. unfold report, calls. destruct (due m n i); reflexivity. Qed.

Lemma yielded_expected m n (items : list A) (i : Z) :
  yielded (expected m n i items) = items.
Proof.
  revert i. induction items as [|v rest IH]; intros i; [reflexivity|].
  simpl. rewrite yielded_app, yielded_report. simpl. now rewrite IH.
Qed.

Lemma turns_from_report m n i (tr : list (event A)) :
  turns_from [] (report m n i ++ tr) = turns_from (calls m n i) tr.
Proof. unfold report, calls. destruct (due m n i); reflexivity. Qed.

Lemma turns_expected m n (items : list A) (i : Z) (k : nat) (v : A) :
  nth_error items k = Some v ->
  nth_error (turns (expected m n i items)) k = Some (calls m n (i + Z.of_nat k), v).
Proof.
  unfold turns. revert i k.
  induction items as [|w rest IH]; intros i k Hk; [destruct k; discriminate|].
  simpl expected. rewrite turns_from_report. simpl turns_from.
  destruct k as [|k].
  - simpl in *. inversion Hk. subst. now rewrite Z.add_0_r.
  - simpl in Hk. simpl nth_error. rewrite (IH (i + 1) k Hk).
    f_equal. f_equal. f_equal. lia.
Qed.

Lemma length_turns_expected m n (items : list A) (i : Z) :
  List.length (turns (expected m n i items)) = List.length items.
Proof.
  unfold turns. revert i. induction items as [|w rest IH]; intros i; [reflexivity|].
  simpl expected. rewrite turns_from_report. simpl. now rewrite IH.
Qed.

End Traces.

Section Claims.
Context {A : Type}.
Implicit Types (m : Monitor A) (l : list A).



Lemma len_nonneg l : 0 <= len l.
Proof. unfold len. lia. Qed.

Lemma nth_error_len l (i : nat) (v : A) :
  nth_error l i = Some v -> 0 <= Z.of_nat i < len l.
Proof.
  intros H. unfold len.
  assert (i < List.length l)%nat by (apply nth_error_Some; congruence). lia.
Qed.

End Claims.

Lemma ratio_monotone (i i' n : Z) :
  i <= i' -> 1 <= n -> ratio_units i n <= ratio_units i' n.
Proof.
  intros Hi Hn. unfold ratio_units.
  pose proof one_pos. pose proof (fl_ge_one n Hn).
  pose proof (fl_monotone i i' Hi).
  apply round_monotone; [lia | lia |].
  apply Z.mul_le_mono_nonneg_r; nia.
Qed.

Lemma progress_units_monotone (s e r r' : Z) :
  s <= e -> r <= r' -> progress_units s e r <= progress_units s e r'.
Proof.
  intros Hse Hr. unfold progress_units.
  pose proof one_pos.
  pose proof (fl_nonneg (e - s) ltac:(lia)).
  apply round_monotone; [lia | lia |].
  rewrite !Z.mul_1_r. apply Z.add_le_mono_l.
  apply round_monotone; [lia | lia |].
  apply Z.mul_le_mono_nonneg_r; nia.
Qed.

Lemma progress_units_lower (s e r : Z) :
  0 <= s <= 2 ^ 53 -> s <= e -> 0 <= r -> s * one <= progress_units s e r.
Proof.
  intros Hs Hse Hr. unfold progress_units.
  pose proof one_pos.
  pose proof (fl_nonneg (e - s) ltac:(lia)).
  assert (Hfs : fl s = s * one) by (apply fl_exact; lia).
  assert (Hp : 0 <= round (fl (e - s) * r) one) by (apply round_nonneg; nia).
  apply round_ge; [lia | apply representable_int; lia | lia].
Qed.

(** A power of two between [n] and [2 n]. *)
Lemma pow2_cover (n : Z) :
  1 <= n -> exists j, 0 <= j /\ n <= 2 ^ j /\ 2 ^ j <= 2 * n - 1.
Proof.
  intros Hn. exists (Z.log2_up n).
  split; [apply Z.log2_up_nonneg|].
  destruct (Z.eq_dec n 1) as [->|Hne]; [simpl; lia|].
  destruct (Z.log2_up_spec n ltac:(lia)) as [Hlo Hhi].
  split; [exact Hhi|].
  assert (0 < Z.log2_up n) by (apply Z.log2_up_pos; lia).
  replace (Z.log2_up n) with (Z.succ (Z.pred (Z.log2_up n))) by lia.
  rewrite Z.pow_succ_r by lia. lia.
Qed.

Lemma progress_units_upper (s e i n : Z) :
  0 <= s < e -> 0 <= i < n -> e * n <= 2 ^ 52 ->
  progress_units s e (ratio_units i n) < e * one.
Proof.
  intros Hs Hi Hen.
  pose proof one_pos as H1.
  assert (H53 : 2 ^ 53 = 2 * 2 ^ 52) by reflexivity.
  assert (H52 : 0 < 2 ^ 52) by (apply pow2_pos; lia).
  destruct (pow2_cover n ltac:(lia)) as (j & Hj & Hlo & Hhi).
  set (P := 2 ^ j) in *.
  assert (HeP : e * P <= 2 ^ 53) by nia.
  assert (HP53 : P <= 2 ^ 53) by nia.
  assert (Hj53 : j <= 53).
  { destruct (Z.le_gt_cases j 53) as [|Hgt]; [assumption|].
    assert (2 ^ 53 < 2 ^ j) by (apply Z.pow_lt_mono_r; lia). subst P. lia. }
  set (T := 2 ^ (1074 - j)).
  assert (HT : 0 < T) by (apply pow2_pos; lia).
  assert (Hone : one = P * T).
  { unfold one, P, T. rewrite <- Z.pow_add_r by lia. f_equal. lia. }
  assert (Hn53 : n <= 2 ^ 53) by nia.
  assert (Hfi : fl i = i * one) by (apply fl_exact; lia).
  assert (Hfn : fl n = n * one) by (apply fl_exact; lia).
  assert (Hfd : fl (e - s) = (e - s) * one) by (apply fl_exact; nia).
  assert (Hfs : fl s = s * one) by (apply fl_exact; nia).
  (* the ratio is at most 1 - 1/P *)
  assert (Hr : ratio_units i n <= (P - 1) * T).
  { unfold ratio_units. rewrite Hfi, Hfn.
    apply round_le; [nia | apply representable_pow2_mul; lia |].
    rewrite Hone at 2.
    assert (i * P <= (P - 1) * n) by nia.
    replace (i * one * (P * T)) with (i * P * (one * T)) by ring.
    replace ((P - 1) * T * (n * one)) with ((P - 1) * n * (one * T)) by ring.
    apply Z.mul_le_mono_nonneg_r; nia. }
  (* so is the product, scaled by the width of the range *)
  assert (Hp : round (fl (e - s) * ratio_units i n) one <= (e - s) * (P - 1) * T).
  { apply round_le; [lia | apply representable_pow2_mul; nia |].
    rewrite Hfd.
    replace ((e - s) * (P - 1) * T * one) with ((e - s) * one * ((P - 1) * T)) by ring.
    apply Z.mul_le_mono_nonneg_l; nia. }
  assert (Hv : progress_units s e (ratio_units i n) <= (e * P - (e - s)) * T).
  { unfold progress_units.
    apply round_le; [lia | apply representable_pow2_mul; nia |].
    rewrite !Z.mul_1_r, Hfs.
    replace ((e * P - (e - s)) * T) with (s * one + (e - s) * (P - 1) * T)
      by (rewrite Hone; ring).
    lia. }
  rewrite Hone. nia.
Qed.

Section Range.
Context {A : Type}.
Implicit Types (m : Monitor A) (l : list A).

Lemma progress_monotone m (n i i' : Z) :
  _start m <= _end m -> 1 <= n -> i <= i' ->
  progress m n i <= progress m n i'.
Proof.
  intros Hse Hn Hi. unfold progress.
  apply Z.quot_le_mono; [apply one_pos|].
  apply progress_units_monotone; [exact Hse|].
  apply ratio_monotone; assumption.
Qed.

Lemma progress_in_range m (n i : Z) :
  0 <= _start m < _end m -> 0 <= i < n -> _end m * n <= 2 ^ 52 ->
  _start m <= progress m n i < _end m.
Proof.
  intros Hs Hi Hen. unfold progress.
  pose proof one_pos as H1.
  assert (H52 : 0 < 2 ^ 52) by (apply pow2_pos; lia).
  assert (H53 : 2 ^ 53 = 2 * 2 ^ 52) by reflexivity.
  pose proof (ratio_bounds i n ltac:(lia) ltac:(lia)) as Hr.
  pose proof (progress_units_lower (_start m) (_end m) (ratio_units i n)
                ltac:(nia) ltac:(lia) ltac:(lia)) as Hlo.
  pose proof (progress_units_upper (_start m) (_end m) i n Hs Hi Hen) as Hhi.
  split.
  - apply Z.quot_le_lower_bound; lia.
  - apply Z.quot_lt_upper_bound; lia.
Qed.

Lemma updates_expected_range m (n : Z) (items : list A) (i : Z) :
  0 <= _start m < _end m -> _end m * n <= 2 ^ 52 ->
  0 <= i -> i + len items <= n ->
  Forall (fun pc => progress m n i <= fst pc /\ _start m <= fst pc < _end m)
         (updates (expected m n i items)) /\
  StronglySorted Z.le (map fst (updates (expected m n i items))).
Proof.
  intros Hs Hen. revert i.
  induction items as [|v rest IH]; intros i Hi Hlen.
  - split; constructor.
  - unfold len in Hlen. cbn [List.length] in Hlen. rewrite Nat2Z.inj_succ in Hlen.
    pose proof (Zle_0_nat (List.length rest)) as Hr.
    destruct (IH (i + 1) ltac:(lia) ltac:(unfold len; lia)) as [IHf IHs].
    assert (Hmono : progress m n i <= progress m n (i + 1))
      by (apply progress_monotone; lia).
    assert (IHf' : Forall (fun pc => progress m n i <= fst pc /\
                                      _start m <= fst pc < _end m)
                          (updates (expected m n (i + 1) rest))).
    { eapply Forall_impl; [|exact IHf]. simpl. intros pc [H1 H2]. split; lia. }
    simpl expected. rewrite updates_app, updates_report. simpl updates.
    unfold calls. destruct (due m n i); simpl.
    + split.
      * constructor; [|exact IHf']. simpl. split; [lia|].
        apply progress_in_range; [exact Hs | lia | exact Hen].
      * constructor; [exact IHs|].
        apply Forall_map. eapply Forall_impl; [|exact IHf']. simpl. intros pc [H1 _]. exact H1.
    + split; assumption.
Qed.

End Range.

(** ** Evaluating the float formulas on significands

    A double of the normal range is [m * 2^t] units with a 53-bit [m]; its
    rounding only looks at [m].  The lemmas below move the common power of
    two out of each operation, so that a formula is computed on numbers of
    a hundred bits. *)

Lemma progress_small_correct (s e i n c : Z) :
  small_ok s e i n c = true ->
  Z.quot (progress_units s e (ratio_units i n)) one = progress_small s e i n c.
Proof.
  unfold small_ok. cbv zeta. intros H.
  repeat (apply andb_prop in H; destruct H as [H ?]).
  repeat match goal with
         | X : (_ <=? _) = true |- _ => apply Z.leb_le in X
         | X : (_ <? _) = true |- _ => apply Z.ltb_lt in X
         end.
  set (Q := 2 ^ (53 + c)) in *. set (T := 2 ^ (1021 - c)).
  assert (HQ : 0 < Q) by (apply pow2_pos; lia).
  assert (HT : 0 < T) by (apply pow2_pos; lia).
  assert (Hone : one = Q * T).
  { unfold one, Q, T. rewrite <- Z.pow_add_r by lia. f_equal. lia. }
  pose proof one_pos as Hone_pos.
  assert (Er : ratio_units i n = round (i * Q) n * T).
  { unfold ratio_units. rewrite (fl_exact i), (fl_exact n) by lia.
    rewrite round_scale by lia.
    rewrite Hone. rewrite Z.mul_assoc.
    apply round_pow2; [lia | lia | assumption]. }
  unfold progress_units, progress_small. cbv zeta. fold Q.
  rewrite Er. set (r0 := round (i * Q) n) in *.
  assert (Ep : round (fl (e - s) * (r0 * T)) one = round ((e - s) * r0) 1 * T).
  { rewrite (fl_exact (e - s)) by lia.
    replace ((e - s) * one * (r0 * T)) with ((e - s) * r0 * T * one) by ring.
    rewrite <- (Z.mul_1_l one) at 2.
    rewrite round_scale by lia.
    apply round_pow2; [lia | lia | assumption]. }
  rewrite Ep. set (p0 := round ((e - s) * r0) 1) in *.
  rewrite (fl_exact s) by lia. rewrite Hone at 1.
  replace (s * (Q * T) + p0 * T) with ((s * Q + p0) * T) by ring.
  assert (Ev : round ((s * Q + p0) * T) 1 = round (s * Q + p0) 1 * T)
    by (apply round_pow2; [lia | lia | assumption]).
  rewrite Ev, Hone. apply Z.quot_mul_cancel_r; lia.
Qed.


(** The quotient [i / n] of two ints, from its significand. *)
Lemma ratio_units_small (i n c : Z) :
  (0 <=? i) && (i <=? 2 ^ 53) && (0 <? n) && (n <=? 2 ^ 53) &&
  (0 <=? c) && (c <=? 1021) &&
  (2 ^ 52 <=? Z.abs (i * 2 ^ (53 + c)) / n) = true ->
  ratio_units i n = round (i * 2 ^ (53 + c)) n * 2 ^ (1021 - c).
Proof.
  intros H.
  repeat (apply andb_prop in H; destruct H as [H ?]).
  repeat match goal with
         | X : (_ <=? _) = true |- _ => apply Z.leb_le in X
         | X : (_ <? _) = true |- _ => apply Z.ltb_lt in X
         end.
  assert (HQ : 0 < 2 ^ (53 + c)) by (apply pow2_pos; lia).
  assert (HT : 0 < 2 ^ (1021 - c)) by (apply pow2_pos; lia).
  assert (Hone : one = 2 ^ (53 + c) * 2 ^ (1021 - c)).
  { unfold one. rewrite <- Z.pow_add_r by lia. f_equal. lia. }
  pose proof one_pos as Hone_pos.
  unfold ratio_units. rewrite (fl_exact i), (fl_exact n) by lia.
  rewrite round_scale by lia.
  rewrite Hone. rewrite Z.mul_assoc.
  apply round_pow2; [lia | lia | assumption].
Qed.

(** The literal [n / d], from its significand scaled by [2^a]. *)
Lemma literal_small (n d a : Z) :
  0 < d -> 0 <= a <= 1074 ->
  2 ^ 52 <= Z.abs (n * 2 ^ a) / d ->
  Z.abs (round (n * 2 ^ a) d) <= 2 ^ 64 ->
  literal n d = Fin (round (n * 2 ^ a) d * 2 ^ (1074 - a)).
Proof.
  intros Hd Ha Hq Hb. unfold literal, round_quot.
  destruct (Z.ltb_spec 0 d); [|lia].
  assert (Hone : one = 2 ^ a * 2 ^ (1074 - a)).
  { unfold one. rewrite <- Z.pow_add_r by lia. f_equal. lia. }
  rewrite Hone, Z.mul_assoc.
  rewrite round_pow2 by (try assumption; lia).
  apply (finish_bounded _ (64 + (1074 - a))); [lia|].
  rewrite Z.pow_add_r by lia.
  pose proof (pow2_pos (1074 - a) ltac:(lia)).
  rewrite Z.abs_mul, (Z.abs_eq (2 ^ (1074 - a))) by lia.
  apply Z.mul_le_mono_nonneg_r; lia.
Qed.

Section Eval.
Context {A : Type}.
Implicit Types (m : Monitor A).


Lemma float_safe_small (z : Z) : Z.abs z <= 2 ^ 53 -> float_safe z.
Proof.
  unfold float_safe. intros H.
  assert (2 ^ 53 <= 2 ^ 1000) by (apply Z.pow_le_mono_r; lia). lia.
Qed.

(** [int(start + (end - start) * (i / float(n)))] as the program computes
    it, from the computation on significands. *)
Lemma interpolate_small m (i n c : Z) :
  small_ok (_start m) (_end m) i n c = true ->
  Z.abs (_end m) <= 2 ^ 53 -> i <= n ->
  (ratio <- true_div i n ;; _relative_progress m ratio)
  = Ok (progress_small (_start m) (_end m) i n c).
Proof.
  intros H He Hin.
  pose proof (progress_small_correct _ _ _ _ _ H) as Hc.
  unfold small_ok in H. cbv zeta in H.
  repeat (apply andb_prop in H; destruct H as [H ?]).
  repeat match goal with
         | X : (_ <=? _) = true |- _ => apply Z.leb_le in X
         | X : (_ <? _) = true |- _ => apply Z.ltb_lt in X
         end.
  assert (2 ^ 53 <= 2 ^ 1000) by (apply Z.pow_le_mono_r; lia).
  rewrite true_div_fin by lia. cbn [bind].
  rewrite relative_progress_fin
    by (try (apply float_safe_small; assumption); apply ratio_bounds; lia).
  now rewrite Hc.
Qed.


End Eval.

Lemma literal_0_05 : literal 5 100 = Fin (7205759403792794 * 2 ^ (1074 - 57)).
Proof.
  apply (literal_small 5 100 57);
    [lia | lia | vm_compute; discriminate | vm_compute; discriminate].
Qed.

Lemma valid_period_0_05 : valid_period (PeriodFloat (literal 5 100)).
Proof.
  rewrite literal_0_05. cbn [valid_period].
  assert (Hone : one = 2 ^ 57 * 2 ^ (1074 - 57)).
  { unfold one. rewrite <- Z.pow_add_r by lia. reflexivity. }
  pose proof (pow2_pos (1074 - 57) ltac:(lia)) as HT.
  rewrite Hone. split; [lia|].
  apply Z.mul_le_mono_nonneg_r; [lia|]. vm_compute. discriminate.
Qed.

Section Final.
Context {A : Type}.
Implicit Types (m : Monitor A) (l : list A).

Lemma before_yield_no_yield m (n i : Z) (evs : list (event A)) :
  before_yield m n i = Ok evs -> yielded evs = [].
Proof.
  unfold before_yield. intros H.
  destruct (_get_period m n) as [period|]; [|discriminate]. cbn [bind] in H.
  destruct (is_due period i) as [[|]|]; [| |discriminate]; cbn [bind] in H.
  - destruct (true_div i n) as [ratio|]; [|discriminate]. cbn [bind] in H.
    destruct (_relative_progress m ratio) as [p|]; [|discriminate]. cbn [bind] in H.
    inversion H. reflexivity.
  - inversion H. reflexivity.
Qed.

Lemma yielded_loop_prefix m (n : Z) (items : list A) (i : Z) :
  exists k : nat,
    yielded (trace (loop m n i items)) = firstn k items /\
    (raised (loop m n i items) = None ->
     yielded (trace (loop m n i items)) = items).
Proof.
  revert i. induction items as [|v rest IH]; intros i.
  - exists 0%nat. split; reflexivity.
  - simpl loop. destruct (before_yield m n i) as [evs|e] eqn:E.
    + destruct (IH (i + 1)) as (k & Hk & Hall).
      exists (S k). cbn [trace raised].
      rewrite yielded_app, (before_yield_no_yield m n i evs E). simpl.
      split; [now rewrite Hk | intros Hr; now rewrite (Hall Hr)].
    + exists 0%nat. split; [reflexivity | discriminate].
Qed.

Lemma updates_expected_In m (n : Z) (items : list A) (i : Z) (k : nat) (v : A) :
  nth_error items k = Some v ->
  due m n (i + Z.of_nat k) = true ->
  In (progress m n (i + Z.of_nat k),
      format_status (_prefix m) (i + Z.of_nat k + 1) (fst (__len__ (_iterable m))))
     (updates (expected m n i items)).
Proof.
  revert i k. induction items as [|w rest IH]; intros i k Hk Hd; [destruct k; discriminate|].
  simpl expected. rewrite updates_app, updates_report. simpl updates.
  apply in_or_app.
  destruct k as [|k].
  - left. rewrite Z.add_0_r in *. unfold calls. rewrite Hd. left. reflexivity.
  - right. simpl in Hk.
    replace (i + Z.of_nat (S k)) with (i + 1 + Z.of_nat k) in * by lia.
    apply IH; assumption.
Qed.

End Final.




(** ** The claims about the monitor *)

Section MonitorClaims.
Context {A : Type}.
Implicit Types (m : Monitor A) (l : list A).





(** C7.  Over an empty source the run hands out nothing, calls
    [job.update] not once and raises nothing, whatever the period: no
    division and no modulo is reached.  The period that [_get_period]
    makes of a float is never zero. *)
Theorem empty_source m :
  fst (__len__ (_iterable m)) = 0 ->
  trace (__iter__ m) = [] /\ raised (__iter__ m) = None /\
  (forall (f : Float.float) (n p : Z),
     _update_period m = PeriodFloat f -> _get_period m n = Ok (Some p) -> p <> 0).
Proof.
  intros H0.
  assert (Hrun : __iter__ m = {| trace := []; raised := None |}).
  { unfold __iter__. destruct (_iterable m) as [l|l]; cbn [__len__ fst remaining] in *.
    - destruct l; [reflexivity | unfold len in H0; simpl in H0; lia].
    - reflexivity. }
  rewrite Hrun. cbn [trace raised]. split; [reflexivity|]. split; [reflexivity|].
  intros f n p Ef Hp. unfold _get_period in Hp. rewrite Ef in Hp.
  destruct (of_int n) as [x|]; [|discriminate]. cbn [bind] in Hp.
  destruct (to_int (mul f x)) as [k|]; [|discriminate]. cbn [bind] in Hp.
  inversion Hp. lia.
Qed.

(** C8, as amended.  With integer bounds [0 <= start < end] and
    [end * N <= 2^52], every progress value of a run over [N > 0] elements
    lies in [start, end), so that none equals [end], and the values reported
    never decrease. *)
Theorem progress_in_scale m l :
  _iterable m = Sequence l ->
  valid_period (_update_period m) ->
  0 <= _start m < _end m ->
  0 < len l -> _end m * len l <= 2 ^ 52 ->
  raised (__iter__ m) = None /\
  Forall (fun pc => _start m <= fst pc < _end m) (updates (trace (__iter__ m))) /\
  StronglySorted Z.le (map fst (updates (trace (__iter__ m)))).
Proof.
  intros E Hv Hs Hn Hen.
  assert (H52 : 2 ^ 52 <= 2 ^ 1000) by (apply Z.pow_le_mono_r; lia).
  assert (H0 : 0 < 2 ^ 52) by (apply pow2_pos; lia).
  assert (Hl : len l <= 2 ^ 1000) by nia.
  assert (He : _end m <= 2 ^ 1000) by nia.
  rewrite (iter_sequence m l E Hv) by (unfold float_safe; lia || assumption).
  cbn [trace raised]. split; [reflexivity|].
  destruct (updates_expected_range m (len l) l 0 Hs Hen ltac:(lia) ltac:(lia)) as [Hf Hsrt].
  split; [|exact Hsrt].
  eapply Forall_impl; [|exact Hf]. cbn beta. intros pc [_ H]. exact H.
Qed.

End MonitorClaims.

(** *** The claims at concrete inputs *)





(** C7 on an empty list, with a period of zero at that. *)
Lemma empty_source_zero_period :
  trace (__iter__ {| _start := 0; _end := 100; _update_period := PeriodInt 0;
                     _iterable := Sequence (@nil Z); _prefix := None |}) = [] /\
  raised (__iter__ {| _start := 0; _end := 100; _update_period := PeriodInt 0;
                      _iterable := Sequence (@nil Z); _prefix := None |}) = None.
Proof.
  destruct (empty_source
              {| _start := 0; _end := 100; _update_period := PeriodInt 0;
                 _iterable := Sequence (@nil Z); _prefix := None |} eq_refl)
    as (Ht & Hr & _).
  split; [exact Ht | exact Hr].
Defined.

(** C8 on the monitor of [main] over ten inputs. *)
Lemma progress_in_scale_main :
  raised (__iter__ (main_monitor ten)) = None /\
  Forall (fun pc => 20 <= fst pc < 75) (updates (trace (__iter__ (main_monitor ten)))) /\
  StronglySorted Z.le (map fst (updates (trace (__iter__ (main_monitor ten))))).
Proof.
  apply (progress_in_scale (main_monitor ten) ten eq_refl).
  - apply valid_period_0_05.
  - cbn [_start _end main_monitor]. lia.
  - vm_compute. reflexivity.
  - vm_compute. discriminate.
Defined.

(** C8 as the claim has it fails on large bounds: with [start = 2^52] and
    [end = 2^52 + 1] over three elements, the third call reports [end]
    itself, since [2^52 + 2/3] rounds to the double [2^52 + 1]. *)
Lemma progress_reaches_end :
  0 <= _start big_scale_monitor < _end big_scale_monitor /\
  In (_end big_scale_monitor, "None (3/3)."%string)
     (updates (trace (__iter__ big_scale_monitor))) /\
  ~ Forall (fun pc => _start big_scale_monitor <= fst pc < _end big_scale_monitor)
           (updates (trace (__iter__ big_scale_monitor))).
Proof.
  assert (H52 : 0 < 2 ^ 52) by (apply pow2_pos; lia).
  assert (H53 : 2 ^ 53 = 2 * 2 ^ 52) by reflexivity.
  assert (Hs : float_safe (_start big_scale_monitor))
    by (apply float_safe_small; cbn [_start big_scale_monitor]; lia).
  assert (He : float_safe (_end big_scale_monitor))
    by (apply float_safe_small; cbn [_end big_scale_monitor]; lia).
  assert (Hin : In (_end big_scale_monitor, "None (3/3)."%string)
                   (updates (trace (__iter__ big_scale_monitor)))).
  { rewrite (iter_sequence big_scale_monitor [7; 8; 9] eq_refl I Hs He)
      by (vm_compute; discriminate).
    cbn [trace].
    pose proof (updates_expected_In big_scale_monitor (len [7; 8; 9]) [7; 8; 9]
                  0 2 9 eq_refl eq_refl) as H.
    assert (Ep : progress big_scale_monitor (len [7; 8; 9]) (0 + Z.of_nat 2)
                 = _end big_scale_monitor).
    { unfold progress.
      rewrite (progress_small_correct _ _ (0 + Z.of_nat 2) (len [7; 8; 9]) 0)
        by reflexivity.
      reflexivity. }
    rewrite Ep in H. exact H. }
  split; [cbn [_start _end big_scale_monitor]; lia|]. split; [exact Hin|].
  intros Hall. rewrite Forall_forall in Hall.
  specialize (Hall _ Hin). cbn [fst] in Hall. lia.
Qed.

(** ** Further facts about the monitor *)

(** The progress is computed in double precision: over a hundred elements
    on the scale 0-100, element 29 is reported as 28, since [29 / 100.0] is
    a double below 0.29 and [100 * 0.29] one below 29; the exact quotient
    is 29. *)
Theorem progress_is_double_precision (m : Monitor Z) :
  _start m = 0 -> _end m = 100 ->
  (ratio <- true_div 29 100 ;; _relative_progress m ratio) = Ok 28 /\
  Z.quot (_start m * 100 + (_end m - _start m) * 29) 100 = 29.
Proof.
  intros Hs He. split.
  - rewrite (interpolate_small m 29 100 1); rewrite ?Hs, ?He;
      [reflexivity | reflexivity | lia | lia].
  - rewrite Hs, He. reflexivity.
Qed.

Lemma progress_is_double_precision_percent :
  (ratio <- true_div 29 100 ;; _relative_progress (percent_monitor (Sequence ten)) ratio)
  = Ok 28.
Proof.
  apply (progress_is_double_precision (percent_monitor (Sequence ten)) eq_refl eq_refl).
Defined.

(** A one-shot iterator is drained by the [len(self)] of line 80: the loop
    finds it empty, and the run hands out nothing. *)
Theorem iterator_is_drained {A : Type} (m : Monitor A) (l : list A) :
  _iterable m = Iterator l ->
  __iter__ m = {| trace := []; raised := None |}.
Proof. intros E. unfold __iter__. rewrite E. reflexivity. Qed.

Lemma iterator_is_drained_ten :
  yielded (trace (__iter__ (percent_monitor (Iterator ten)))) = [].
Proof.
  rewrite (iterator_is_drained (percent_monitor (Iterator ten)) ten eq_refl).
  reflexivity.
Defined.

(** An int period of zero makes the first turn raise [ZeroDivisionError],
    before anything is reported or handed out. *)
Theorem zero_period_raises {A : Type} (m : Monitor A) (v : A) (l : list A) :
  _update_period m = PeriodInt 0 ->
  _iterable m = Sequence (v :: l) ->
  __iter__ m = {| trace := []; raised := Some ZeroDivisionError |}.
Proof.
  intros Ep E. unfold __iter__. rewrite E. cbn [__len__ remaining loop].
  unfold before_yield, _get_period. rewrite Ep. reflexivity.
Qed.

Lemma zero_period_raises_ten :
  raised (__iter__ {| _start := 0; _end := 100; _update_period := PeriodInt 0;
                      _iterable := Sequence ten; _prefix := None |})
  = Some ZeroDivisionError.
Proof.
  rewrite (zero_period_raises
             {| _start := 0; _end := 100; _update_period := PeriodInt 0;
                _iterable := Sequence ten; _prefix := None |} 0 (tl ten) eq_refl eq_refl).
  reflexivity.
Defined.

(** ** The model of the doubles against the processor's

    [of_prim] reads a hardware double of the Standard Library; the literal
    and the quotient below are the ones the processor computes. *)

Example hardware_literal : literal 5 100 = of_prim 0x1.999999999999ap-5%float.
Proof. rewrite literal_0_05. reflexivity. Qed.

Example hardware_quotient : true_div 29 100 = Ok (of_prim (29 / 100)%float).
Proof.
  rewrite true_div_fin;
    [| lia | split; [lia | apply sys_maxsize_safe; vm_compute; discriminate]].
  rewrite (ratio_units_small 29 100 1) by reflexivity.
  reflexivity.
Qed.

(** ** Further properties of the monitor *)

Lemma bind_assoc {A B C : Type} (r : result A) (f : A -> result B) (g : B -> result C) :
  bind (bind r f) g = bind r (fun a => bind (f a) g).
Proof. destruct r; reflexivity. Qed.


Section Count.
Context {A : Type}.
Implicit Types (m : Monitor A) (l : list A).




End Count.

Section Extras.
Context {A : Type}.
Implicit Types (m : Monitor A) (l : list A).


End Extras.

(** *** Runs that agree on what is due *)

Section SamePeriod.
Context {A : Type}.
Implicit Types (m : Monitor A) (l : list A).

(** Two monitors that differ in their period only run alike when their
    periods select the same indices. *)
Lemma before_yield_same_due m m' (n i : Z) :
  _start m' = _start m -> _end m' = _end m ->
  _iterable m' = _iterable m -> _prefix m' = _prefix m ->
  (period <- _get_period m' n ;; is_due period i)
  = (period <- _get_period m n ;; is_due period i) ->
  before_yield m' n i = before_yield m n i.
Proof.
  intros Es Ee Ei Ep Hd. unfold before_yield.
  rewrite <- !(bind_assoc (_get_period _ n) (fun period => is_due period i)).
  rewrite Hd. unfold _relative_progress. rewrite Es, Ee, Ei, Ep. reflexivity.
Qed.

Lemma loop_same_due m m' (n : Z) (items : list A) (i : Z) :
  _start m' = _start m -> _end m' = _end m ->
  _iterable m' = _iterable m -> _prefix m' = _prefix m ->
  (forall j, (period <- _get_period m' n ;; is_due period j)
             = (period <- _get_period m n ;; is_due period j)) ->
  loop m' n i items = loop m n i items.
Proof.
  intros Es Ee Ei Ep Hd. revert i.
  induction items as [|v rest IH]; intros i; [reflexivity|].
  cbn [loop]. rewrite (before_yield_same_due m m' n i Es Ee Ei Ep (Hd i)).
  rewrite IH. reflexivity.
Qed.

Lemma iter_same_due m m' :
  _start m' = _start m -> _end m' = _end m ->
  _iterable m' = _iterable m -> _prefix m' = _prefix m ->
  (forall n j, (period <- _get_period m' n ;; is_due period j)
               = (period <- _get_period m n ;; is_due period j)) ->
  __iter__ m' = __iter__ m.
Proof.
  intros Es Ee Ei Ep Hd. unfold __iter__. rewrite Ei.
  destruct (__len__ (_iterable m)) as [total it].
  apply loop_same_due; auto.
Qed.

End SamePeriod.

Lemma mod_opp_zero (i p : Z) : (i mod (- p) =? 0) = (i mod p =? 0).
Proof.
  destruct (Z.eq_dec p 0) as [->|Hp]; [reflexivity|].
  destruct (Z.eqb_spec (i mod p) 0) as [E|E].
  - rewrite (Z.mod_opp_r_z i p Hp E). reflexivity.
  - rewrite (Z.mod_opp_r_nz i p Hp E).
    apply Z.eqb_neq.
    destruct (Z.lt_total p 0) as [Hn|[H0|Hn]]; [|lia|].
    + pose proof (Z.mod_neg_bound i p Hn). lia.
    + pose proof (Z.mod_pos_bound i p Hn). lia.
Qed.

Lemma is_due_opp (p i : Z) : is_due (Some (- p)) i = is_due (Some p) i.
Proof.
  unfold is_due. rewrite mod_opp_zero.
  destruct (Z.eqb_spec p 0) as [->|Hp]; [reflexivity|].
  destruct (Z.eqb_spec (- p) 0); [lia | reflexivity].
Qed.

(** [mul] of two finite doubles whose product stays in range. *)
Lemma mul_fin_wide (a b t u : Z) :
  0 <= t -> 0 <= u -> t + u < 1024 ->
  Z.abs a <= 2 ^ t * one -> Z.abs b <= 2 ^ u * one ->
  mul (Fin a) (Fin b) = Fin (round (a * b) one).
Proof.
  intros Ht Hu Htu Ha Hb. pose proof one_pos as H1.
  pose proof (pow2_pos t Ht) as Hpt. pose proof (pow2_pos u Hu) as Hpu.
  unfold mul. apply (finish_scaled _ (t + u)); [lia|].
  apply round_abs_le; [lia | | apply representable_scaled; lia |].
  - pose proof (pow2_pos (t + u) ltac:(lia)). nia.
  - rewrite Z.abs_mul, Z.pow_add_r by lia.
    pose proof (Z.abs_nonneg a). pose proof (Z.abs_nonneg b).
    replace (2 ^ t * 2 ^ u * one * one) with ((2 ^ t * one) * (2 ^ u * one)) by ring.
    apply Z.mul_le_mono_nonneg; lia.
Qed.

Lemma fl_sys_maxsize (n : Z) : 0 <= n <= sys_maxsize -> Z.abs (fl n) <= 2 ^ 63 * one.
Proof.
  intros Hn. apply fl_abs_le; [lia|]. unfold sys_maxsize in Hn. lia.
Qed.

Section EdgePeriods.
Context {A : Type}.
Implicit Types (m : Monitor A) (l : list A).

(** A negative int period selects the indices its absolute value selects:
    Python's [%] takes the sign of the divisor and is zero for the same
    [i]. *)
Theorem negative_period (it : iterable A) (s e p : Z) (prefix : option string) :
  __iter__ (__init__ it s e (PeriodInt (- p)) prefix)
  = __iter__ (__init__ it s e (PeriodInt p) prefix).
Proof.
  apply iter_same_due; try reflexivity.
  intros n j. unfold _get_period. cbn [_update_period __init__ bind].
  apply is_due_opp.
Qed.

(** A float period that is not a number, or infinite, ends the iteration
    of a non-empty sequence at its first element: [int()] of the product
    raises before anything is reported or yielded. *)
Theorem nonfinite_period_raises m (v : A) (rest : list A) :
  _iterable m = Sequence (v :: rest) ->
  len (v :: rest) <= sys_maxsize ->
  (_update_period m = PeriodFloat NaN ->
   __iter__ m = {| trace := []; raised := Some ValueError |}) /\
  (forall s, _update_period m = PeriodFloat (Inf s) ->
   __iter__ m = {| trace := []; raised := Some OverflowError |}).
Proof.
  intros Ei Hn.
  pose proof (len_nonneg rest) as H0.
  assert (Hl : 1 <= len (v :: rest)).
  { unfold len in *. cbn [List.length]. lia. }
  pose proof (sys_maxsize_safe _ Hn) as Hn'.
  pose proof (fl_ge_one _ Hl) as Hf. pose proof one_pos as H1.
  assert (Eo : of_int (len (v :: rest)) = Ok (Fin (fl (len (v :: rest)))))
    by (apply (of_int_fin _ 1000); lia).
  split.
  - intros Ep. unfold __iter__. rewrite Ei. cbn [__len__ remaining loop].
    unfold before_yield, _get_period. rewrite Ep, Eo. reflexivity.
  - intros s Ep. unfold __iter__. rewrite Ei. cbn [__len__ remaining loop].
    unfold before_yield, _get_period. rewrite Ep, Eo. cbn [bind mul].
    rewrite is_zero_fin by lia. reflexivity.
Qed.

(** The period a float of at most zero gives. *)
Lemma get_period_nonpositive m (k n : Z) :
  _update_period m = PeriodFloat (Fin k) ->
  - (2 ^ 900 * one) <= k <= 0 -> 0 <= n <= sys_maxsize ->
  _get_period m n = Ok (Some 1).
Proof.
  intros Ep Hk Hn. pose proof one_pos as H1.
  unfold _get_period. rewrite Ep.
  rewrite (of_int_fin n 1000) by (pose proof (sys_maxsize_safe n); lia).
  rewrite bind_ok.
  rewrite (mul_fin_wide k (fl n) 900 63);
    [| lia | lia | lia | lia | apply fl_sys_maxsize; exact Hn].
  cbn [to_int]. rewrite bind_ok.
  pose proof (fl_nonneg n ltac:(lia)) as Hf.
  assert (Hr : round (k * fl n) one <= 0).
  { apply (round_le _ _ 0); [lia | apply (representable_pow2_mul 0 0); lia | nia]. }
  assert (Hq : Z.quot (round (k * fl n) one) one <= 0).
  { rewrite <- (Z.quot_0_l one) by lia. apply Z.quot_le_mono; lia. }
  do 2 f_equal. lia.
Qed.

(** A float period of zero or below: the period in force is 1 and the run
    is the run of the int period 1, where an int period of 0 raises. *)
Theorem nonpositive_float_period (it : iterable A) (s e k : Z) (prefix : option string) :
  - (2 ^ 900 * one) <= k <= 0 ->
  fst (__len__ it) <= sys_maxsize ->
  __iter__ (__init__ it s e (PeriodFloat (Fin k)) prefix)
  = __iter__ (__init__ it s e (PeriodInt 1) prefix).
Proof.
  intros Hk Hn.
  unfold __iter__. cbn [_iterable __init__].
  destruct (__len__ it) as [total it'] eqn:El. cbn [fst] in Hn.
  assert (H0 : 0 <= total).
  { destruct it; cbn [__len__] in El; injection El as <- _; apply len_nonneg. }
  apply loop_same_due; try reflexivity.
  intros j.
  rewrite (get_period_nonpositive (__init__ it s e (PeriodFloat (Fin k)) prefix)
             k total eq_refl Hk ltac:(lia)).
  reflexivity.
Qed.

End EdgePeriods.

(** *** The scale, without a bound on the length *)

Lemma progress_units_at_one (s e : Z) :
  Z.abs s <= 2 ^ 53 -> Z.abs (e - s) <= 2 ^ 53 -> Z.abs e <= 2 ^ 53 ->
  progress_units s e one = e * one.
Proof.
  intros Hs Hd He. unfold progress_units.
  rewrite (fl_exact s Hs), (fl_exact (e - s) Hd).
  rewrite (round_exact ((e - s) * one) one);
    [| apply one_pos | apply representable_int; exact Hd].
  replace (s * one + (e - s) * one) with (e * one * 1) by ring.
  apply round_exact; [lia | apply representable_int; exact He].
Qed.

Lemma progress_units_closed (s e r : Z) :
  0 <= s <= e -> e <= 2 ^ 53 -> 0 <= r <= one ->
  s * one <= progress_units s e r <= e * one.
Proof.
  intros Hs He Hr. split.
  - apply progress_units_lower; lia.
  - rewrite <- (progress_units_at_one s e) by lia.
    apply progress_units_monotone; lia.
Qed.

Section Closed.
Context {A : Type}.
Implicit Types (m : Monitor A) (l : list A).

Lemma progress_closed m (n i : Z) :
  0 <= _start m <= _end m -> _end m <= 2 ^ 53 -> 0 <= i < n ->
  _start m <= progress m n i <= _end m.
Proof.
  intros Hs He Hi. unfold progress. pose proof one_pos as H1.
  pose proof (ratio_bounds i n ltac:(lia) ltac:(lia)) as Hr.
  destruct (progress_units_closed (_start m) (_end m) (ratio_units i n) Hs He Hr)
    as [Hlo Hhi].
  split.
  - apply Z.quot_le_lower_bound; lia.
  - pose proof (Z.quot_mul (_end m) one ltac:(lia)) as Eq.
    pose proof (Z.quot_le_mono _ _ one H1 Hhi) as Hq.
    lia.
Qed.

Lemma updates_expected_closed m (n : Z) (items : list A) (i : Z) :
  0 <= _start m <= _end m -> _end m <= 2 ^ 53 ->
  0 <= i -> i + len items <= n ->
  Forall (fun pc => progress m n i <= fst pc /\ _start m <= fst pc <= _end m)
         (updates (expected m n i items)) /\
  StronglySorted Z.le (map fst (updates (expected m n i items))).
Proof.
  intros Hs He. revert i.
  induction items as [|v rest IH]; intros i Hi Hlen.
  - split; constructor.
  - unfold len in Hlen. cbn [List.length] in Hlen. rewrite Nat2Z.inj_succ in Hlen.
    pose proof (Zle_0_nat (List.length rest)) as Hr.
    destruct (IH (i + 1) ltac:(lia) ltac:(unfold len; lia)) as [IHf IHs].
    assert (Hmono : progress m n i <= progress m n (i + 1))
      by (apply progress_monotone; lia).
    assert (IHf' : Forall (fun pc => progress m n i <= fst pc /\
                                      _start m <= fst pc <= _end m)
                          (updates (expected m n (i + 1) rest))).
    { eapply Forall_impl; [|exact IHf]. cbn beta. intros pc [H1 H2]. split; lia. }
    cbn [expected]. rewrite updates_app, updates_report. cbn [updates].
    unfold calls. destruct (due m n i); cbn [app].
    + split.
      * constructor; [|exact IHf']. cbn [fst]. split; [lia|].
        apply progress_closed; [exact Hs | exact He | lia].
      * cbn [map fst]. constructor; [exact IHs|].
        apply Forall_map. eapply Forall_impl; [|exact IHf']. cbn beta.
        intros pc [H1 _]. exact H1.
    + split; assumption.
Qed.

(** On a scale [0 <= start <= end <= 2^53] and for a sequence of any
    length, no reported value leaves [[start, end]] and the values never
    decrease. *)
Theorem progress_within_bounds m l :
  _iterable m = Sequence l ->
  valid_period (_update_period m) ->
  0 <= _start m <= _end m -> _end m <= 2 ^ 53 ->
  len l <= sys_maxsize ->
  raised (__iter__ m) = None /\
  Forall (fun pc => _start m <= fst pc <= _end m) (updates (trace (__iter__ m))) /\
  StronglySorted Z.le (map fst (updates (trace (__iter__ m)))).
Proof.
  intros E Hv Hs He Hn.
  pose proof (sys_maxsize_safe _ Hn) as Hn'.
  rewrite (iter_sequence m l E Hv) by (try apply float_safe_small; lia).
  cbn [trace raised]. split; [reflexivity|].
  destruct (updates_expected_closed m (len l) l 0 Hs He ltac:(lia) ltac:(lia))
    as [Hf Hsort].
  split; [|exact Hsort].
  eapply Forall_impl; [|exact Hf]. cbn beta. intros pc [_ H]. exact H.
Qed.


End Closed.

Section WholePeriod.
Context {A : Type}.
Implicit Types (m : Monitor A) (l : list A).




(** [Monitor(job, l)] with the defaults: every element is reported, on the
    scale 0-100, under a comment that starts with the word [None]. *)
Theorem default_monitor_reports l (i : nat) (v : A) :
  len l <= sys_maxsize ->
  nth_error l i = Some v ->
  exists p,
    nth_error (turns (trace (__iter__ (default_monitor (Sequence l))))) i
    = Some ([(p, ("None (" ++ str_int (Z.of_nat i + 1) ++ "/"
                   ++ str_int (len l) ++ ").")%string)], v) /\
    0 <= p <= 100.
Proof.
  intros Hn Hi.
  pose proof (sys_maxsize_safe _ Hn) as Hn'.
  pose proof (nth_error_len l i v Hi) as Hb.
  set (m := default_monitor (Sequence l)).
  assert (E53 : 100 <= 2 ^ 53) by (vm_compute; discriminate).
  rewrite (iter_sequence m l eq_refl I) by
    (try exact Hn'; apply float_safe_small; cbn [m default_monitor __init__ _start _end]; lia).
  cbn [trace]. rewrite (turns_expected m (len l) l 0 i v Hi).
  exists (progress m (len l) (0 + Z.of_nat i)). split.
  - reflexivity.
  - apply (progress_closed m (len l) (0 + Z.of_nat i));
      cbn [m default_monitor __init__ _start _end]; lia.
Qed.

End WholePeriod.

(** ** Ratios and progress values against dyadic bounds *)

Lemma one_split (j : Z) : 0 <= j <= 1074 -> one = 2 ^ j * 2 ^ (1074 - j).
Proof. intros Hj. unfold one. rewrite <- Z.pow_add_r by lia. f_equal. lia. Qed.

Lemma ratio_units_dyadic_le (i n a j : Z) :
  0 <= i <= 2 ^ 53 -> 1 <= n <= 2 ^ 53 -> 0 <= a <= 2 ^ 53 -> 0 <= j <= 1074 ->
  i * 2 ^ j <= a * n ->
  ratio_units i n <= a * 2 ^ (1074 - j).
Proof.
  intros Hi Hn Ha Hj H. pose proof one_pos as H1.
  pose proof (one_split j Hj) as Eo.
  set (T := 2 ^ (1074 - j)) in *.
  assert (HT : 0 < T) by (apply pow2_pos; lia).
  unfold ratio_units. rewrite (fl_exact i), (fl_exact n) by lia.
  apply round_le; [nia | apply representable_pow2_mul; lia |].
  replace (a * T * (n * one)) with (a * n * T * one) by ring.
  apply Z.mul_le_mono_nonneg_r; [lia|].
  rewrite Eo. replace (i * (2 ^ j * T)) with (i * 2 ^ j * T) by ring.
  apply Z.mul_le_mono_nonneg_r; lia.
Qed.

Lemma ratio_units_dyadic_ge (i n a j : Z) :
  0 <= i <= 2 ^ 53 -> 1 <= n <= 2 ^ 53 -> 0 <= a <= 2 ^ 53 -> 0 <= j <= 1074 ->
  a * n <= i * 2 ^ j ->
  a * 2 ^ (1074 - j) <= ratio_units i n.
Proof.
  intros Hi Hn Ha Hj H. pose proof one_pos as H1.
  pose proof (one_split j Hj) as Eo.
  set (T := 2 ^ (1074 - j)) in *.
  assert (HT : 0 < T) by (apply pow2_pos; lia).
  unfold ratio_units. rewrite (fl_exact i), (fl_exact n) by lia.
  apply round_ge; [nia | apply representable_pow2_mul; lia |].
  replace (a * T * (n * one)) with (a * n * T * one) by ring.
  apply Z.mul_le_mono_nonneg_r; [lia|].
  rewrite Eo. replace (i * (2 ^ j * T)) with (i * 2 ^ j * T) by ring.
  apply Z.mul_le_mono_nonneg_r; lia.
Qed.

(** The interpolation at a ratio [a / 2^j] is exact while the numbers
    involved have at most 53 bits. *)
Lemma progress_units_dyadic (s e a j : Z) :
  0 <= s -> s <= e -> 0 <= a -> 0 <= j <= 1074 ->
  s <= 2 ^ 53 -> e - s <= 2 ^ 53 ->
  (e - s) * a <= 2 ^ 53 -> s * 2 ^ j + (e - s) * a <= 2 ^ 53 ->
  progress_units s e (a * 2 ^ (1074 - j))
  = (s * 2 ^ j + (e - s) * a) * 2 ^ (1074 - j).
Proof.
  intros Hs Hse Ha Hj Hs53 Hd53 Hp53 Hv53. pose proof one_pos as H1.
  pose proof (one_split j Hj) as Eo.
  assert (Hpj : 0 < 2 ^ j) by (apply pow2_pos; lia).
  set (T := 2 ^ (1074 - j)) in *.
  unfold progress_units.
  rewrite (fl_exact s), (fl_exact (e - s)) by lia.
  replace ((e - s) * one * (a * T)) with ((e - s) * a * T * one) by ring.
  rewrite (round_exact ((e - s) * a * T) one);
    [| lia | apply representable_pow2_mul; nia].
  replace (s * one + (e - s) * a * T)
    with ((s * 2 ^ j + (e - s) * a) * T * 1) by (rewrite Eo; ring).
  apply round_exact; [lia | apply representable_pow2_mul; nia].
Qed.

(** On the scale of [main], 20 to 75: a ratio of at most 237/256 reports
    at most 70, a ratio of at least 475/512 reports at least 71. *)
Lemma main_scale_le_70 (i n : Z) :
  0 <= i -> 1 <= n <= 2 ^ 53 -> 256 * i <= 237 * n ->
  Z.quot (progress_units 20 75 (ratio_units i n)) one <= 70.
Proof.
  intros Hi Hn H. pose proof one_pos as H1.
  assert (H53 : 2 ^ 53 = 9007199254740992) by reflexivity.
  assert (H8 : 2 ^ 8 = 256) by reflexivity.
  pose proof (ratio_units_dyadic_le i n 237 8 ltac:(lia) Hn ltac:(lia) ltac:(lia)
                ltac:(lia)) as Hr.
  pose proof (progress_units_monotone 20 75 _ _ ltac:(lia) Hr) as Hm.
  rewrite (progress_units_dyadic 20 75 237 8) in Hm by lia.
  pose proof (one_split 8 ltac:(lia)) as Eo.
  set (T := 2 ^ (1074 - 8)) in *.
  assert (HT : 0 < T) by (apply pow2_pos; lia).
  assert (Hlo : 20 * one <= progress_units 20 75 (ratio_units i n)).
  { apply progress_units_lower; [lia | lia |].
    apply (ratio_bounds i n); lia. }
  assert (Hlt : Z.quot (progress_units 20 75 (ratio_units i n)) one < 71).
  { apply Z.quot_lt_upper_bound; lia. }
  lia.
Qed.

Lemma main_scale_ge_71 (i n : Z) :
  0 <= i <= n -> 1 <= n <= 2 ^ 53 -> 475 * n <= 512 * i ->
  71 <= Z.quot (progress_units 20 75 (ratio_units i n)) one.
Proof.
  intros Hi Hn H. pose proof one_pos as H1.
  assert (H53 : 2 ^ 53 = 9007199254740992) by reflexivity.
  assert (H9 : 2 ^ 9 = 512) by reflexivity.
  pose proof (ratio_units_dyadic_ge i n 475 9 ltac:(lia) Hn ltac:(lia) ltac:(lia)
                ltac:(lia)) as Hr.
  pose proof (progress_units_monotone 20 75 _ _ ltac:(lia) Hr) as Hm.
  rewrite (progress_units_dyadic 20 75 475 9) in Hm by lia.
  pose proof (one_split 9 ltac:(lia)) as Eo.
  set (T := 2 ^ (1074 - 9)) in *.
  assert (HT : 0 < T) by (apply pow2_pos; lia).
  apply Z.quot_le_lower_bound; lia.
Qed.

(** The period of the monitor of [main] is 1 or at most a sixteenth of
    the number of inputs. *)
Lemma main_period {A : Type} (l : list A) (n : Z) :
  0 <= n <= 2 ^ 53 ->
  exists p, period_of (main_monitor l) n = Some p /\ 1 <= p /\ (p = 1 \/ 16 * p <= n).
Proof.
  intros Hn. pose proof one_pos as H1.
  unfold period_of. cbn [main_monitor _update_period].
  rewrite literal_0_05.
  set (k := 7205759403792794 * 2 ^ (1074 - 57)).
  set (q := Z.quot (round (k * fl n) one) one).
  exists (Z.max q 1). split; [reflexivity|]. split; [lia|].
  destruct (Z.le_gt_cases q 1) as [Hq|Hq]; [left; lia | right].
  rewrite Z.max_l by lia.
  pose proof (one_split 4 ltac:(lia)) as Eo.
  assert (E4 : 2 ^ 4 = 16) by reflexivity. rewrite E4 in Eo.
  assert (Hk : 0 <= k <= 2 ^ (1074 - 4)).
  { unfold k. split.
    - apply Z.mul_nonneg_nonneg; [lia | apply Z.pow_nonneg; lia].
    - replace (2 ^ (1074 - 4)) with (2 ^ 53 * 2 ^ (1074 - 57))
        by (rewrite <- Z.pow_add_r by lia; f_equal).
      apply Z.mul_le_mono_nonneg_r; [apply Z.pow_nonneg; lia|].
      assert (H53 : 2 ^ 53 = 9007199254740992) by reflexivity. lia. }
  set (T := 2 ^ (1074 - 4)) in *.
  assert (HT : 0 < T) by (apply pow2_pos; lia).
  assert (Hr : round (k * fl n) one <= n * T).
  { apply round_le; [lia | apply representable_pow2_mul; lia |].
    rewrite (fl_exact n) by lia.
    replace (k * (n * one)) with (k * n * one) by ring.
    apply Z.mul_le_mono_nonneg_r; [lia|].
    rewrite (Z.mul_comm n T). apply Z.mul_le_mono_nonneg_r; lia. }
  assert (Hr0 : 0 <= round (k * fl n) one).
  { apply round_nonneg; [|lia].
    apply Z.mul_nonneg_nonneg; [lia | apply fl_nonneg; lia]. }
  pose proof (Z.mul_quot_le (round (k * fl n) one) one Hr0 ltac:(lia)) as Hm.
  fold q in Hm. nia.
Qed.

(** With 14 inputs or more, some reported index is late enough for a
    report of 71. *)
Lemma late_due_index (n p : Z) :
  14 <= n -> 1 <= p -> p = 1 \/ 16 * p <= n ->
  exists K, 0 <= K < n /\ K mod p = 0 /\ 475 * n <= 512 * K.
Proof.
  intros Hn Hp Hcase.
  exists (p * ((n - 1) / p)).
  pose proof (Z.div_mod (n - 1) p ltac:(lia)) as E.
  pose proof (Z.mod_pos_bound (n - 1) p ltac:(lia)) as B.
  assert (H0 : 0 <= (n - 1) / p) by (apply Z.div_pos; lia).
  split; [nia|]. split.
  - rewrite Z.mul_comm. apply Z.mod_mul. lia.
  - lia.
Qed.

(** The progress in units against the exact quotient
    [q = (s n + (e - s) i) / n]: between [q - 1] and [q + 1], the latter
    excluded. *)
Lemma progress_units_near_exact (s e i n : Z) :
  0 <= s < e -> 0 <= i <= n -> 1 <= n ->
  e * (e - s) * n <= 2 ^ 52 ->
  let q := (s * n + (e - s) * i) / n in
  (q - 1) * one <= progress_units s e (ratio_units i n) < (q + 1) * one.
Proof.
  intros Hs Hi Hn Hb q. pose proof one_pos as H1.
  set (d := e - s) in *.
  assert (Hd : 1 <= d) by (unfold d; lia).
  assert (H53 : 2 ^ 53 = 2 * 2 ^ 52) by reflexivity.
  assert (H52 : 0 < 2 ^ 52) by (apply pow2_pos; lia).
  assert (Hdn : 1 <= d * n) by nia.
  destruct (pow2_cover (d * n) Hdn) as (j & Hj & Hlo & Hhi).
  set (P := 2 ^ j) in *.
  assert (HP : 1 <= P) by lia.
  assert (HeP : e * P <= 2 ^ 53) by nia.
  assert (HP53 : P <= 2 ^ 53) by nia.
  assert (Hj53 : j <= 53).
  { destruct (Z.le_gt_cases j 53) as [|Hgt]; [assumption|].
    assert (2 ^ 53 < 2 ^ j) by (apply Z.pow_lt_mono_r; lia). subst P. lia. }
  assert (Hn53 : n <= 2 ^ 53) by nia.
  pose proof (one_split j ltac:(lia)) as Eo. fold P in Eo.
  set (T := 2 ^ (1074 - j)) in *.
  assert (HT : 0 < T) by (apply pow2_pos; lia).
  assert (Hdy : forall a, 0 <= a <= P ->
                progress_units s e (a * T) = (s * P + d * a) * T).
  { intros a Ha.
    assert (d * a <= d * P) by (apply Z.mul_le_mono_nonneg_l; lia).
    assert (d * P <= e * P) by (apply Z.mul_le_mono_nonneg_r; unfold d; lia).
    assert (s * P + d * P = e * P) by (unfold d; ring).
    assert (s <= 2 ^ 53) by nia.
    assert (d <= 2 ^ 53) by nia.
    unfold T, P, d in *. apply progress_units_dyadic; lia. }
  (* the exact quotient *)
  pose proof (Z.div_mod (s * n + d * i) n ltac:(lia)) as Eq.
  pose proof (Z.mod_pos_bound (s * n + d * i) n ltac:(lia)) as Bq.
  fold q in Eq. set (rq := (s * n + d * i) mod n) in *.
  (* the ratio between two neighbouring multiples of 1/P *)
  pose proof (Z.div_mod (i * P) n ltac:(lia)) as Ec.
  pose proof (Z.mod_pos_bound (i * P) n ltac:(lia)) as Bc.
  set (c := (i * P) / n) in *. set (rc := (i * P) mod n) in *.
  assert (Hc0 : 0 <= c) by (apply Z.div_pos; nia).
  assert (HcP : c <= P).
  { destruct (Z.le_gt_cases c P) as [|Hgt]; [assumption | exfalso].
    assert (n * (P + 1) <= n * c) by (apply Z.mul_le_mono_nonneg_l; lia).
    assert (i * P <= n * P) by (apply Z.mul_le_mono_nonneg_r; lia).
    lia. }
  assert (Hlow : ratio_units i n >= c * T).
  { apply Z.le_ge. apply (ratio_units_dyadic_ge i n c j); fold P; first [lia | nia]. }
  (* [(s P + d c) n] in terms of the two remainders *)
  assert (E1 : d * (i * P) = d * (n * c) + d * rc) by (rewrite Ec; ring).
  assert (E2 : P * (s * n + d * i) = P * (n * q) + P * rq) by (rewrite Eq; ring).
  assert (E3 : (s * P + d * c) * n = P * (n * q) + P * rq - d * rc).
  { rewrite <- E2.
    replace (P * (s * n + d * i)) with (s * P * n + d * (i * P)) by ring.
    rewrite E1. ring. }
  assert (B1 : P * rq <= P * (n - 1)) by (apply Z.mul_le_mono_nonneg_l; lia).
  assert (B2 : 0 <= P * rq) by (apply Z.mul_nonneg_nonneg; lia).
  assert (B3 : d * rc <= d * (n - 1)) by (apply Z.mul_le_mono_nonneg_l; lia).
  assert (B4 : P * 1 <= P * n) by (apply Z.mul_le_mono_nonneg_l; lia).
  split.
  - (* from below *)
    pose proof (progress_units_monotone s e _ _ ltac:(lia) (Z.ge_le _ _ Hlow)) as Hm.
    rewrite (Hdy c) in Hm by lia.
    assert (Hk : (q - 1) * P <= s * P + d * c).
    { apply (Z.mul_le_mono_pos_r _ _ n); [lia|].
      rewrite E3.
      replace ((q - 1) * P * n) with (P * (n * q) - P * n) by ring.
      lia. }
    rewrite Eo.
    replace ((q - 1) * (P * T)) with ((q - 1) * P * T) by ring.
    eapply Z.le_trans; [|exact Hm].
    apply Z.mul_le_mono_nonneg_r; lia.
  - (* from above *)
    destruct (Z.eq_dec rc 0) as [Hz|Hnz].
    + (* the ratio is a multiple of 1/P *)
      assert (Hup : ratio_units i n <= c * T).
      { apply (ratio_units_dyadic_le i n c j); fold P; first [lia | nia]. }
      pose proof (progress_units_monotone s e _ _ ltac:(lia) Hup) as Hm.
      rewrite (Hdy c) in Hm by lia.
      assert (Hk : s * P + d * c < (q + 1) * P).
      { apply (Z.mul_lt_mono_pos_r n); [lia|].
        rewrite E3, Hz, Z.mul_0_r.
        replace ((q + 1) * P * n) with (P * (n * q) + P * (n - 1) + P) by ring.
        lia. }
      rewrite Eo.
      replace ((q + 1) * (P * T)) with ((q + 1) * P * T) by ring.
      eapply Z.le_lt_trans; [exact Hm|].
      apply Z.mul_lt_mono_pos_r; lia.
    + assert (HcP1 : c + 1 <= P).
      { destruct (Z.eq_dec c P) as [E|]; [|lia]. exfalso.
        assert (i * P <= n * P) by (apply Z.mul_le_mono_nonneg_r; lia).
        rewrite E in Ec. lia. }
      assert (Hup : ratio_units i n <= (c + 1) * T).
      { apply (ratio_units_dyadic_le i n (c + 1) j); fold P; first [lia | nia]. }
      pose proof (progress_units_monotone s e _ _ ltac:(lia) Hup) as Hm.
      rewrite (Hdy (c + 1)) in Hm by lia.
      assert (Hk : s * P + d * (c + 1) < (q + 1) * P).
      { apply (Z.mul_lt_mono_pos_r n); [lia|].
        assert (B5 : d * 1 <= d * rc) by (apply Z.mul_le_mono_nonneg_l; lia).
        replace ((s * P + d * (c + 1)) * n) with ((s * P + d * c) * n + d * n) by ring.
        rewrite E3.
        replace ((q + 1) * P * n) with (P * (n * q) + P * (n - 1) + P) by ring.
        lia. }
      rewrite Eo.
      replace ((q + 1) * (P * T)) with ((q + 1) * P * T) by ring.
      eapply Z.le_lt_trans; [exact Hm|].
      apply Z.mul_lt_mono_pos_r; lia.
Qed.

Section NearExact.
Context {A : Type}.
Implicit Types (m : Monitor A).

(** Double precision costs at most one unit.  On a scale
    [0 <= start < end] and for [end * (end - start) * N <= 2^52], the
    value reported at index [i] is the exact
    [(start * N + (end - start) * i) // N] or the integer below it, and
    never the integer above. *)
Theorem progress_near_exact m (i n : Z) :
  0 <= _start m < _end m -> 0 <= i < n ->
  _end m * (_end m - _start m) * n <= 2 ^ 52 ->
  exists p,
    (ratio <- true_div i n ;; _relative_progress m ratio) = Ok p /\
    let exact := (_start m * n + (_end m - _start m) * i) / n in
    exact - 1 <= p <= exact.
Proof.
  intros Hs Hi Hb. pose proof one_pos as H1.
  assert (H52 : 0 < 2 ^ 52) by (apply pow2_pos; lia).
  assert (H53 : 2 ^ 53 = 2 * 2 ^ 52) by reflexivity.
  assert (Hdn : 1 <= (_end m - _start m) * n) by nia.
  assert (Hed : 1 <= _end m * (_end m - _start m)) by nia.
  assert (He : _end m <= 2 ^ 52).
  { assert (_end m * 1 <= _end m * ((_end m - _start m) * n))
      by (apply Z.mul_le_mono_nonneg_l; lia).
    lia. }
  assert (Hn : n <= 2 ^ 52).
  { assert (1 * n <= _end m * (_end m - _start m) * n)
      by (apply Z.mul_le_mono_nonneg_r; lia).
    lia. }
  assert (Hn' : n <= 2 ^ 1000).
  { assert (2 ^ 52 <= 2 ^ 1000) by (apply Z.pow_le_mono_r; lia). lia. }
  pose proof (ratio_bounds i n ltac:(lia) ltac:(lia)) as Hr.
  exists (Z.quot (progress_units (_start m) (_end m) (ratio_units i n)) one).
  split.
  - rewrite true_div_fin by lia. rewrite bind_ok.
    apply relative_progress_fin; [apply float_safe_small; lia .. | exact Hr].
  - cbv zeta.
    destruct (progress_units_near_exact (_start m) (_end m) i n Hs ltac:(lia)
                ltac:(lia) Hb) as [Hlo Hhi].
    pose proof (progress_units_lower (_start m) (_end m) (ratio_units i n)
                  ltac:(lia) ltac:(lia) ltac:(lia)) as H0.
    split.
    + apply Z.quot_le_lower_bound; lia.
    + assert (Z.quot (progress_units (_start m) (_end m) (ratio_units i n)) one
              < (_start m * n + (_end m - _start m) * i) / n + 1); [|lia].
      apply Z.quot_lt_upper_bound; nia.
Qed.

End NearExact.

(** *** The properties at concrete inputs *)

Lemma ten_fits : len ten <= sys_maxsize.
Proof. vm_compute. discriminate. Qed.


(** [period=float('nan')] over ten elements. *)
Lemma nonfinite_period_raises_ten :
  __iter__ (__init__ (Sequence ten) 0 100 (PeriodFloat NaN) None)
  = {| trace := []; raised := Some ValueError |}.
Proof.
  apply (proj1 (nonfinite_period_raises
                  (__init__ (Sequence ten) 0 100 (PeriodFloat NaN) None)
                  0 [1; 2; 3; 4; 5; 6; 7; 8; 9] eq_refl ten_fits)).
  reflexivity.
Defined.

(** [period=0.0] over ten elements. *)
Lemma nonpositive_float_period_ten :
  __iter__ (__init__ (Sequence ten) 0 100 (PeriodFloat (Fin 0)) None)
  = __iter__ (__init__ (Sequence ten) 0 100 (PeriodInt 1) None).
Proof.
  apply nonpositive_float_period.
  - assert (0 < 2 ^ 900 * one)
      by (apply Z.mul_pos_pos; [apply pow2_pos; lia | apply one_pos]).
    lia.
  - exact ten_fits.
Defined.

(** The monitor of [main] over ten inputs stays within 20 and 75. *)
Lemma progress_within_bounds_main :
  raised (__iter__ (main_monitor ten)) = None /\
  Forall (fun pc => 20 <= fst pc <= 75) (updates (trace (__iter__ (main_monitor ten)))) /\
  StronglySorted Z.le (map fst (updates (trace (__iter__ (main_monitor ten))))).
Proof.
  apply (progress_within_bounds (main_monitor ten) ten eq_refl).
  - apply valid_period_0_05.
  - cbn [_start _end main_monitor]. lia.
  - cbn [_end main_monitor]. lia.
  - exact ten_fits.
Defined.



(** The last of ten elements under the defaults. *)
Lemma default_monitor_reports_ten :
  exists p,
    nth_error (turns (trace (__iter__ (default_monitor (Sequence ten))))) 9
    = Some ([(p, "None (10/10)."%string)], 9) /\
    0 <= p <= 100.
Proof.
  destruct (default_monitor_reports ten 9 9 ten_fits eq_refl) as (p & Ht & Hp).
  exists p. split; [|exact Hp]. rewrite Ht. reflexivity.
Defined.

(** Index 29 of 100 on the scale 0-100: 28 or 29. *)
Lemma progress_near_exact_percent :
  exists p,
    (ratio <- true_div 29 100 ;;
     _relative_progress (percent_monitor (Sequence ten)) ratio) = Ok p /\
    28 <= p <= 29.
Proof.
  destruct (progress_near_exact (percent_monitor (Sequence ten)) 29 100)
    as (p & Hp & Hb).
  - cbn [_start _end percent_monitor]. lia.
  - lia.
  - cbn [_start _end percent_monitor]. vm_compute. discriminate.
  - exists p. split; [exact Hp|].
    cbv zeta in Hb. cbn [_start _end percent_monitor] in Hb.
    change ((0 * 100 + (100 - 0) * 29) / 100) with 29 in Hb. lia.
Defined.

End MonitorFacts.

(** ** The inference pipeline *)

Module PredictFacts.
Import Predict.


Section PipelineFacts.
Variables (P W : Type).
Variable cv2_resize : ndarray P -> Float.float -> result (ndarray P).
Variable as_float32 : P -> Float.float.
Variable true_divide : Float.float -> Z -> Float.float.
Variable forward : network W -> ndarray Float.float -> result (ndarray Float.float).
Variable resample : nat -> nat -> ndarray Float.float -> list nat -> Float.float.

Notation probability_map' :=
  (probability_map P W cv2_resize as_float32 true_divide forward resample).
Notation predict_img' :=
  (predict_img P W cv2_resize as_float32 true_divide forward resample).

(** The shape of [mask_np] when every library does its part: the resized
    image has three axes and the model returns one channel. *)
Lemma probability_map_shape (net : network W) (full_img img1 : ndarray P)
    (sf : Float.float) (h w c sh sw : nat) :
  shape full_img = [h; w; c] ->
  cv2_resize full_img sf = Ok img1 ->
  shape img1 = [sh; sw; c] ->
  (forall x, shape x = [1; c; sh; sw]%nat ->
     exists y, forward net x = Ok y /\ shape y = [1; 1; sh; sw]%nat) ->
  exists mask_np,
    probability_map' net full_img sf = Ok mask_np /\
    shape mask_np = filter (fun d => negb (Nat.eqb d 1)) [h; w].
Proof.
  intros Hs Hr Hs1 Hf.
  unfold probability_map.
  rewrite Hs. cbn [unpack3 bind]. rewrite Hr. cbn [bind].
  unfold transpose_201, normalize, map_array. cbn [shape]. rewrite Hs1. cbn [bind].
  match goal with |- context [forward net ?x] => destruct (Hf x) as (y & Ey & Sy) end;
    [reflexivity|].
  rewrite Ey. cbn [bind].
  unfold squeeze0. rewrite Sy. unfold tf. cbn [shape bind].
  eexists. split; reflexivity.
Qed.

Lemma predict_img_shape (net : network W) (full_img img1 : ndarray P)
    (sf thr : Float.float) (h w c sh sw : nat) :
  shape full_img = [h; w; c] ->
  cv2_resize full_img sf = Ok img1 ->
  shape img1 = [sh; sw; c] ->
  (forall x, shape x = [1; c; sh; sw]%nat ->
     exists y, forward (eval net) x = Ok y /\ shape y = [1; 1; sh; sw]%nat) ->
  exists mask,
    fst (predict_img' net full_img sf thr) = Ok mask /\
    shape mask = filter (fun d => negb (Nat.eqb d 1)) [h; w].
Proof.
  intros Hs Hr Hs1 Hf.
  destruct (probability_map_shape (eval net) full_img img1 sf h w c sh sw Hs Hr Hs1 Hf)
    as (mask_np & Em & Sm).
  unfold predict_img. cbn [fst]. rewrite Em. cbn [bind].
  eexists. split; [reflexivity | exact Sm].
Qed.

(** C4, where the code departs from it.  For an image one pixel high (and
    at least two wide), with a resize that keeps the three axes and a model
    that returns one channel, the mask has one axis, of the native width:
    the [squeeze()] of line 44 drops the native axis of size 1 with the
    channel axis. *)
Theorem unit_axis_dropped (net : network W) (full_img img1 : ndarray P)
    (sf thr : Float.float) (w c sh sw : nat) :
  shape full_img = [1; w; c]%nat -> (2 <= w)%nat ->
  cv2_resize full_img sf = Ok img1 ->
  shape img1 = [sh; sw; c] ->
  (forall x, shape x = [1; c; sh; sw]%nat ->
     exists y, forward (eval net) x = Ok y /\ shape y = [1; 1; sh; sw]%nat) ->
  exists mask,
    fst (predict_img' net full_img sf thr) = Ok mask /\
    shape mask = [w] /\ shape mask <> [1; w]%nat.
Proof.
  intros Hs Hw Hr Hs1 Hf.
  destruct (predict_img_shape net full_img img1 sf thr 1 w c sh sw Hs Hr Hs1 Hf)
    as (mask & Em & Sm).
  exists mask. split; [exact Em|].
  cbn [filter Nat.eqb negb] in Sm.
  destruct (Nat.eqb_spec w 1) as [E1|_]; [lia|]. cbn [negb] in Sm.
  rewrite Sm. split; [reflexivity | discriminate].
Qed.

(** With both native sides of at least two pixels the mask has the native
    shape, whatever the scale factor. *)
Theorem mask_has_native_shape (net : network W) (full_img img1 : ndarray P)
    (sf thr : Float.float) (h w c sh sw : nat) :
  shape full_img = [h; w; c] -> (2 <= h)%nat -> (2 <= w)%nat ->
  cv2_resize full_img sf = Ok img1 ->
  shape img1 = [sh; sw; c] ->
  (forall x, shape x = [1; c; sh; sw]%nat ->
     exists y, forward (eval net) x = Ok y /\ shape y = [1; 1; sh; sw]%nat) ->
  exists mask,
    fst (predict_img' net full_img sf thr) = Ok mask /\ shape mask = [h; w].
Proof.
  intros Hs Hh Hw Hr Hs1 Hf.
  destruct (predict_img_shape net full_img img1 sf thr h w c sh sw Hs Hr Hs1 Hf)
    as (mask & Em & Sm).
  exists mask. split; [exact Em|].
  cbn [filter] in Sm.
  destruct (Nat.eqb_spec h 1) as [E1|_]; [lia|].
  destruct (Nat.eqb_spec w 1) as [E1|_]; [lia|].
  exact Sm.
Qed.



(** C10.  On an image of fewer than three axes the unpacking of line 24
    raises, and so does [predict_img], whatever the libraries would have
    done; the unpacking succeeds on three axes only, and a call that returns
    a mask was given an image of three axes. *)
Theorem too_few_axes (net : network W) (full_img : ndarray P)
    (sf thr : Float.float) :
  ((List.length (shape full_img) < 3)%nat ->
   unpack3 (shape full_img) = Raise ValueError /\
   fst (predict_img' net full_img sf thr) = Raise ValueError) /\
  (forall h w c,
     unpack3 (shape full_img) = Ok (h, w, c) <-> shape full_img = [h; w; c]) /\
  (forall mask, fst (predict_img' net full_img sf thr) = Ok mask ->
     List.length (shape full_img) = 3%nat).
Proof.
  split; [|split].
  - intros Hl.
    assert (Hu : unpack3 (shape full_img) = Raise ValueError).
    { destruct (shape full_img) as [|a [|b [|c [|d s]]]]; simpl in *;
        try reflexivity; lia. }
    split; [exact Hu|].
    unfold predict_img, probability_map. cbn [fst]. rewrite Hu. reflexivity.
  - intros h w c.
    destruct (shape full_img) as [|a [|b [|c' [|d s]]]]; cbn [unpack3];
      split; intros E; try discriminate; inversion E; reflexivity.
  - intros mask. unfold predict_img, probability_map. cbn [fst].
    destruct (shape full_img) as [|a [|b [|c' [|d s]]]]; cbn [unpack3 bind];
      try discriminate. reflexivity.
Qed.


End PipelineFacts.

(** *** The claims at concrete inputs *)

Lemma zero_model_contract (c sh sw : nat) (net : network unit) :
  forall x, shape x = [1; c; sh; sw]%nat ->
    exists y, zero_model net x = Ok y /\ shape y = [1; 1; sh; sw]%nat.
Proof.
  intros x Hx. unfold zero_model. rewrite Hx. eexists. split; reflexivity.
Qed.

(** C4 at the failing input: a black image of shape (1, 5, 3), no
    rescaling. *)
Lemma unit_axis_dropped_1x5 :
  exists mask,
    fst (toy_predict (black [1; 5; 3]%nat) (Float.Fin 0)) = Ok mask /\
    shape mask = [5]%nat /\ shape mask <> [1; 5]%nat.
Proof.
  apply (unit_axis_dropped Z unit same_size _ _ zero_model zero_resample
           untrained (black [1; 5; 3]%nat) (black [1; 5; 3]%nat) _ _ 5 3 1 5).
  - reflexivity.
  - lia.
  - reflexivity.
  - reflexivity.
  - apply zero_model_contract.
Defined.

(** The same pipeline on a 4 x 5 image. *)
Lemma mask_has_native_shape_4x5 :
  exists mask,
    fst (toy_predict (black [4; 5; 3]%nat) (Float.Fin 0)) = Ok mask /\
    shape mask = [4; 5]%nat.
Proof.
  apply (mask_has_native_shape Z unit same_size _ _ zero_model zero_resample
           untrained (black [4; 5; 3]%nat) (black [4; 5; 3]%nat) _ _ 4 5 3 4 5).
  - reflexivity.
  - lia.
  - lia.
  - reflexivity.
  - reflexivity.
  - apply zero_model_contract.
Defined.


(** C10 on a grayscale image of shape (4, 5). *)
Lemma too_few_axes_4x5 :
  fst (toy_predict (black [4; 5]%nat) (Float.Fin 0)) = Raise ValueError.
Proof.
  apply (proj1 (too_few_axes Z unit same_size (fun z => Float.Fin (z * Float.one))
                  (fun x _ => x) zero_model zero_resample
                  untrained (black [4; 5]%nat) (Float.Fin Float.one) (Float.Fin 0))).
  cbn [black shape List.length]. lia.
Defined.


End PredictFacts.

(** ** The workflow *)

Module MainFacts.
Import Float Monitor Predict Main FloatFacts MonitorFacts.

Lemma and_then_fst {A B : Type} (r : run A) (k : A -> run B) :
  fst (and_then r k)
  = fst r ++ match snd r with Ok a => fst (k a) | Raise _ => [] end.
Proof.
  destruct r as [t [a|e]]; cbn [and_then fst snd].
  - destruct (k a); reflexivity.
  - symmetry. apply app_nil_r.
Qed.

Lemma and_then_snd {A B : Type} (r : run A) (k : A -> run B) :
  snd (and_then r k)
  = match snd r with Ok a => snd (k a) | Raise e => Raise e end.
Proof.
  destruct r as [t [a|e]]; cbn [and_then fst snd]; [|reflexivity].
  destruct (k a); reflexivity.
Qed.

Lemma progress_of_app (t1 t2 : list effect) :
  progress_of (t1 ++ t2) = progress_of t1 ++ progress_of t2.
Proof.
  induction t1 as [|e t1 IH]; [reflexivity|].
  destruct e; cbn [app progress_of]; rewrite IH; reflexivity.
Qed.

Lemma written_app (t1 t2 : list effect) :
  written (t1 ++ t2) = written t1 ++ written t2.
Proof.
  induction t1 as [|e t1 IH]; [reflexivity|].
  destruct e; cbn [app written]; rewrite IH; reflexivity.
Qed.

Lemma sorted_app (l1 l2 : list Z) :
  StronglySorted Z.le l1 -> StronglySorted Z.le l2 ->
  (forall x y, In x l1 -> In y l2 -> x <= y) ->
  StronglySorted Z.le (l1 ++ l2).
Proof.
  intros H1 H2 H. induction H1 as [|a l1 Hs IH Ha]; [exact H2|].
  cbn [app]. constructor.
  - apply IH. intros x y Hx Hy. apply H; [right; exact Hx | exact Hy].
  - apply Forall_app. split; [exact Ha|].
    apply Forall_forall. intros y Hy. apply H; [left; reflexivity | exact Hy].
Qed.

Lemma sorted_app_inv (l1 l2 : list Z) (x y : Z) :
  StronglySorted Z.le (l1 ++ l2) -> In x l1 -> In y l2 -> x <= y.
Proof.
  induction l1 as [|a l1 IH]; intros Hs Hx Hy; [contradiction|].
  cbn [app] in Hs. apply StronglySorted_inv in Hs. destruct Hs as [Hs Ha].
  destruct Hx as [->|Hx]; [|exact (IH Hs Hx Hy)].
  rewrite Forall_forall in Ha. apply Ha. apply in_or_app. right. exact Hy.
Qed.

Section Expected.
Context {A : Type}.
Implicit Types (m : Monitor A).

(** What holds of the progress at every index holds of every report. *)
Lemma updates_expected_all (Q : Z -> Prop) m (n : Z) (items : list A) (i : Z) :
  (forall j, i <= j < i + len items -> Q (progress m n j)) ->
  Forall (fun pc => Q (fst pc)) (updates (expected m n i items)).
Proof.
  revert i. induction items as [|v rest IH]; intros i HQ; [constructor|].
  assert (Hl : len (v :: rest) = len rest + 1)
    by (unfold len; cbn [List.length]; lia).
  pose proof (len_nonneg rest) as H0.
  cbn [expected]. rewrite updates_app, updates_report. cbn [updates].
  apply Forall_app. split.
  - unfold calls. destruct (due m n i); constructor; [|constructor].
    cbn [fst]. apply HQ. lia.
  - apply IH. intros j Hj. apply HQ. lia.
Qed.

End Expected.

Section WorkflowFacts.
Variables (P W C : Type).
Variable cv2_resize : ndarray P -> Float.float -> result (ndarray P).
Variable as_float32 : P -> Float.float.
Variable true_divide : Float.float -> Z -> Float.float.
Variable forward : network W -> ndarray Float.float -> result (ndarray Float.float).
Variable resample : nat -> nat -> ndarray Float.float -> list nat -> Float.float.
Variable PSPNet : bool -> result (network W).
Variable cpu : network W -> result (network W).
Variable torch_load : string -> result W.
Variable load_state_dict : network W -> W -> result (network W).
Variable from_cli : list string -> result unit.
Variable get_discipline : result C.
Variable prepare_data : C -> result data.
Variable threshold : Float.float.
Variable imread : string -> result (ndarray P).
Variable path_join : string -> string -> string.
Variable imwrite : string -> ndarray Z -> result unit.
Variable upload_data : C -> list image_ref -> string -> result unit.
Variable upload_metrics : C -> list image_ref -> string -> string -> string -> result unit.

Let predict (net : network W) (img : ndarray P) : result (ndarray bool) * network W :=
  predict_img P W cv2_resize as_float32 true_divide forward resample
    net img (Float.literal 5 10) threshold.
Let process' := process P W cv2_resize as_float32 true_divide forward resample
    threshold imread path_join imwrite.
Let for_each' := for_each P W cv2_resize as_float32 true_divide forward resample
    threshold imread path_join imwrite.
Let monitored_loop' := monitored_loop P W cv2_resize as_float32 true_divide forward
    resample threshold imread path_join imwrite.
Let load_model' := load_model W PSPNet cpu torch_load load_state_dict.
Let main' := main P W C cv2_resize as_float32 true_divide forward resample
    PSPNet cpu torch_load load_state_dict from_cli get_discipline prepare_data
    threshold imread path_join imwrite upload_data upload_metrics.

(** One turn of the body: it stops before writing anything, or it writes
    one image, made of the mask of [predict_img]. *)
Lemma process_cases (d : data) (net : network W) (r : image_ref) :
  (exists e, process' d net r = ([], Raise e)) \/
  (exists img mask,
     imread (filepath r) = Ok img /\
     fst (predict net img) = Ok mask /\
     fst (process' d net r)
     = [Imwrite (path_join (out_path d) (filename r)) (astype_uint8 mask)] /\
     snd (process' d net r)
     = (_ <- imwrite (path_join (out_path d) (filename r)) (astype_uint8 mask) ;;
        Ok (snd (predict net img)))).
Proof.
  unfold process', process, predict. cbv beta.
  destruct (imread (filepath r)) as [img|e];
    [|left; exists e; reflexivity].
  cbn [call and_then].
  destruct (predict_img P W cv2_resize as_float32 true_divide forward resample
              net img (literal 5 10) threshold) as [[mask|e] net'] eqn:E.
  - right. exists img, mask. split; [reflexivity|]. rewrite E.
    split; [reflexivity|].
    cbn [call and_then emit ret fst snd app].
    destruct (imwrite _ _) as [[]|e]; split; reflexivity.
  - left. exists e. reflexivity.
Qed.

Lemma predict_three_axes (net : network W) (img : ndarray P) (mask : ndarray bool) :
  fst (predict net img) = Ok mask -> List.length (shape img) = 3%nat.
Proof.
  unfold predict, predict_img, probability_map. cbn [fst].
  destruct (shape img) as [|a [|b [|c [|x s]]]]; cbn [unpack3 bind];
    try discriminate. reflexivity.
Qed.

Lemma astype_uint8_binary (mask : ndarray bool) (idx : list nat) :
  item (astype_uint8 mask) idx = 0 \/ item (astype_uint8 mask) idx = 1.
Proof.
  unfold astype_uint8, map_array. cbn [item].
  destruct (item mask idx); [right | left]; reflexivity.
Qed.

Lemma for_each_update (d : data) (net : network W) p c evs :
  for_each' d net (JobUpdate p c :: evs)
  = (Update None p c :: fst (for_each' d net evs), snd (for_each' d net evs)).
Proof.
  unfold for_each'. cbn [for_each emit and_then].
  destruct (for_each _ _ _ _ _ _ _ _ _ _ _ d net evs). reflexivity.
Qed.

Lemma for_each_yield_fst (d : data) (net : network W) r evs :
  fst (for_each' d net (Yield r :: evs))
  = fst (process' d net r)
    ++ match snd (process' d net r) with
       | Ok net' => fst (for_each' d net' evs)
       | Raise _ => []
       end.
Proof. unfold for_each'. cbn [for_each]. apply and_then_fst. Qed.

Lemma for_each_yield_snd (d : data) (net : network W) r evs :
  snd (for_each' d net (Yield r :: evs))
  = match snd (process' d net r) with
    | Ok net' => snd (for_each' d net' evs)
    | Raise e => Raise e
    end.
Proof. unfold for_each'. cbn [for_each]. apply and_then_snd. Qed.

(** The loop never sets the job to [TERMINATED]. *)
Lemma for_each_not_terminated (d : data) evs (net : network W) :
  existsb terminates (fst (for_each' d net evs)) = false.
Proof.
  revert net. induction evs as [|[p c|r] evs IH]; intros net.
  - reflexivity.
  - rewrite for_each_update. cbn [fst existsb terminates orb]. apply IH.
  - rewrite for_each_yield_fst, existsb_app.
    destruct (process_cases d net r) as [(e & E)|(img & mask & _ & _ & Ef & Es)].
    + rewrite E. reflexivity.
    + rewrite Ef, Es. cbn [existsb terminates orb].
      destruct (imwrite _ _) as [[]|e]; cbn [bind]; [apply IH | reflexivity].
Qed.

(** Every image the loop writes holds zeros and ones. *)
Lemma for_each_written_binary (d : data) evs (net : network W) :
  Forall (fun w => forall idx, item (snd w) idx = 0 \/ item (snd w) idx = 1)
         (written (fst (for_each' d net evs))).
Proof.
  revert net. induction evs as [|[p c|r] evs IH]; intros net.
  - constructor.
  - rewrite for_each_update. cbn [fst written]. apply IH.
  - rewrite for_each_yield_fst, written_app. apply Forall_app.
    destruct (process_cases d net r) as [(e & E)|(img & mask & _ & _ & Ef & Es)].
    + rewrite E. cbn [fst snd written]. split; constructor.
    + rewrite Ef, Es. cbn [written]. split.
      * constructor; [|constructor]. cbn [snd]. apply astype_uint8_binary.
      * destruct (imwrite _ _) as [[]|e]; cbn [bind written]; [apply IH | constructor].
Qed.

(** A loop that comes to its end: what it reported, what it wrote and
    what it read. *)
Lemma for_each_ok (d : data) evs (net net' : network W) :
  snd (for_each' d net evs) = Ok net' ->
  progress_of (fst (for_each' d net evs)) = map fst (updates evs) /\
  map fst (written (fst (for_each' d net evs)))
  = map (fun r => path_join (out_path d) (filename r)) (yielded evs) /\
  Forall (fun r => exists img,
            imread (filepath r) = Ok img /\ List.length (shape img) = 3%nat)
         (yielded evs).
Proof.
  revert net. induction evs as [|[p c|r] evs IH]; intros net.
  - intros _. cbn. repeat split. constructor.
  - rewrite for_each_update. cbn [fst snd]. intros H.
    destruct (IH net H) as (Hp & Hw & Hr).
    cbn [progress_of written updates yielded map fst]. rewrite Hp.
    repeat split; assumption.
  - rewrite for_each_yield_snd, for_each_yield_fst.
    destruct (process_cases d net r) as [(e & E)|(img & mask & Ei & Em & Ef & Es)].
    + rewrite E. cbn [snd]. discriminate.
    + rewrite Ef, Es.
      destruct (imwrite _ _) as [[]|e]; cbn [bind]; [|discriminate].
      intros H. destruct (IH _ H) as (Hp & Hw & Hr).
      cbn [app progress_of written updates yielded map fst].
      rewrite Hp, Hw. repeat split.
      constructor; [|exact Hr].
      exists img. split; [exact Ei|]. exact (predict_three_axes net img mask Em).
Qed.

(** The loop comes to its end when every turn of the body does. *)
Lemma for_each_succeeds (d : data) evs (net : network W) :
  (forall net r, In r (yielded evs) -> exists net', snd (process' d net r) = Ok net') ->
  exists net', snd (for_each' d net evs) = Ok net'.
Proof.
  revert net. induction evs as [|[p c|r] evs IH]; intros net Hb.
  - exists net. reflexivity.
  - rewrite for_each_update. cbn [snd]. apply IH. exact Hb.
  - rewrite for_each_yield_snd.
    destruct (Hb net r ltac:(left; reflexivity)) as (net1 & E1). rewrite E1.
    apply IH. intros net2 r2 Hin. apply Hb. right. exact Hin.
Qed.

(** A run of [main] that returns: every call returned, the monitor did not
    raise, the loop came to its end, and the effects are those of the
    loop between the prologue and the epilogue. *)
Lemma main_inv (argv : list string) :
  snd (main' argv) = Ok tt ->
  exists cls d net t net',
    get_discipline = Ok cls /\
    prepare_data cls = Ok d /\
    load_model' "/app/model.pth" = Ok net /\
    raised (__iter__ (main_monitor (in_images d))) = None /\
    for_each' d net (trace (__iter__ (main_monitor (in_images d)))) = (t, Ok net') /\
    fst (main' argv) = prologue ++ t ++ epilogue d.
Proof.
  unfold main', main. intros H.
  rewrite and_then_snd in H. rewrite and_then_fst.
  cbn [call fst snd app] in H |- *.
  destruct (from_cli argv) as [[]|e]; [|discriminate].
  rewrite and_then_snd in H. rewrite and_then_fst.
  cbn [call fst snd app] in H |- *.
  destruct get_discipline as [cls|e] eqn:Ec; [|discriminate].
  rewrite and_then_snd in H. rewrite and_then_fst.
  cbn [emit fst snd app] in H |- *.
  rewrite and_then_snd in H. rewrite and_then_fst.
  cbn [call fst snd app] in H |- *.
  destruct (prepare_data cls) as [d|e] eqn:Ed; [|discriminate].
  rewrite and_then_snd in H. rewrite and_then_fst.
  cbn [emit fst snd app] in H |- *.
  rewrite and_then_snd in H. rewrite and_then_fst.
  cbn [call fst snd app] in H |- *.
  fold load_model' in H |- *.
  destruct (load_model' "/app/model.pth") as [net|e] eqn:En; [|discriminate].
  rewrite and_then_snd in H. rewrite and_then_fst.
  unfold monitored_loop in H |- *. cbv zeta in H |- *.
  fold for_each' in H |- *.
  rewrite and_then_snd in H. rewrite and_then_fst, and_then_snd.
  destruct (for_each' d net (trace (__iter__ (main_monitor (in_images d)))))
    as [t [net'|e]] eqn:Ef; cbn [fst snd] in H |- *; [|discriminate].
  destruct (raised (__iter__ (main_monitor (in_images d)))) as [e|] eqn:Er;
    cbn [call ret fst snd] in H |- *; [discriminate|].
  rewrite and_then_snd in H. rewrite and_then_fst. cbn [emit fst snd app] in H |- *.
  rewrite and_then_snd in H. rewrite and_then_fst. cbn [emit fst snd app] in H |- *.
  rewrite and_then_snd in H. rewrite and_then_fst. cbn [call fst snd app] in H |- *.
  destruct (upload_data cls (in_images d) (out_path d)) as [[]|e]; [|discriminate].
  rewrite and_then_snd in H. rewrite and_then_fst. cbn [emit fst snd app] in H |- *.
  rewrite and_then_snd in H. rewrite and_then_fst. cbn [emit fst snd app] in H |- *.
  rewrite and_then_snd in H. rewrite and_then_fst. cbn [call fst snd app] in H |- *.
  destruct (upload_metrics cls (in_images d) (gt_path d) (out_path d) (tmp_path d))
    as [[]|e]; [|discriminate].
  exists cls, d, net, t, net'.
  split; [reflexivity|]. split; [first [exact Ed | reflexivity]|].
  split; [first [exact En | reflexivity]|].
  split; [first [exact Er | reflexivity]|].
  split; [first [exact Ef | reflexivity]|].
  cbn [emit fst]. rewrite app_nil_r. reflexivity.
Qed.

Ltac main_step H :=
  rewrite and_then_snd in H; rewrite and_then_fst;
  cbn [call emit ret fst snd app] in H |- *.

(** A run of [main] that raises has not set the job to [TERMINATED]. *)
Lemma main_raise (argv : list string) (e : exn) :
  snd (main' argv) = Raise e ->
  existsb terminates (fst (main' argv)) = false.
Proof.
  unfold main', main. intros H.
  main_step H. destruct (from_cli argv) as [[]|e0]; [|reflexivity].
  main_step H. destruct get_discipline as [cls|e0]; [|reflexivity].
  main_step H. main_step H.
  destruct (prepare_data cls) as [d|e0]; [|reflexivity].
  main_step H. main_step H.
  destruct (load_model _ _ _ _ _ _) as [net|e0]; [|reflexivity].
  rewrite and_then_snd in H. rewrite and_then_fst.
  unfold monitored_loop in H |- *. cbv zeta in H |- *.
  fold for_each' in H |- *.
  rewrite and_then_snd in H. rewrite and_then_fst, and_then_snd.
  pose proof (for_each_not_terminated d
                (trace (__iter__ (main_monitor (in_images d)))) net) as Ht.
  destruct (for_each' d net (trace (__iter__ (main_monitor (in_images d)))))
    as [t [net'|e0]]; cbn [fst snd] in H, Ht |- *.
  - destruct (raised (__iter__ (main_monitor (in_images d)))) as [e0|];
      cbn [call ret fst snd existsb terminates orb] in H |- *.
    + rewrite !app_nil_r. exact Ht.
    + rewrite app_nil_r, existsb_app, Ht. cbn [orb].
      main_step H. main_step H. main_step H.
      destruct (upload_data _ _ _) as [[]|e0]; [|reflexivity].
      main_step H. main_step H. main_step H.
      destruct (upload_metrics _ _ _ _ _) as [[]|e0]; [|reflexivity].
      discriminate.
  - rewrite !app_nil_r. exact Ht.
Qed.

(** The progress values of a run of [main] that returns. *)
Lemma main_progress (argv : list string) (cls : C) (d : data) :
  snd (main' argv) = Ok tt ->
  get_discipline = Ok cls -> prepare_data cls = Ok d ->
  len (in_images d) <= 2 ^ 53 ->
  progress_of (fst (main' argv))
  = [0; 10]
    ++ map fst (updates (expected (main_monitor (in_images d))
                           (len (in_images d)) 0 (in_images d)))
    ++ [70; 90; 100].
Proof.
  intros H Hc Hd Hn.
  destruct (main_inv argv H) as (cls' & d' & net & t & net' & Ec & Ed & _ & _ & Ef & Et).
  rewrite Hc in Ec. injection Ec as <-.
  rewrite Hd in Ed. injection Ed as <-.
  rewrite Et, !progress_of_app.
  assert (Hn' : len (in_images d) <= 2 ^ 1000).
  { assert (2 ^ 53 <= 2 ^ 1000) by (apply Z.pow_le_mono_r; lia). lia. }
  rewrite (iter_sequence (main_monitor (in_images d)) (in_images d) eq_refl
             (valid_period_0_05) ) in Ef
    by (try exact Hn'; apply float_safe_small; cbn [_start _end main_monitor]; lia).
  cbn [trace] in Ef.
  pose proof (for_each_ok d (expected (main_monitor (in_images d))
                                (len (in_images d)) 0 (in_images d)) net net') as Hok.
  rewrite Ef in Hok. cbn [fst snd] in Hok.
  destruct (Hok eq_refl) as (Hp & _ & _).
  rewrite Hp. reflexivity.
Qed.

(** The progress values [main] sends to the job go 0, 10, the reports of
    the loop, 70, 90, 100.  The reports of the loop stay at or below 70
    up to 13 inputs; from 14 inputs on one of them is at least 71, and
    the 70 that follows the loop steps back. *)
Theorem progress_steps_back (argv : list string) (cls : C) (d : data) :
  snd (main' argv) = Ok tt ->
  get_discipline = Ok cls -> prepare_data cls = Ok d ->
  len (in_images d) <= 2 ^ 53 ->
  (StronglySorted Z.le (progress_of (fst (main' argv))) <-> len (in_images d) <= 13).
Proof.
  intros H Hc Hd Hn.
  rewrite (main_progress argv cls d H Hc Hd Hn).
  set (l := in_images d) in *. set (m := main_monitor l). set (n := len l) in *.
  pose proof (len_nonneg l) as H0. fold n in H0.
  assert (H53 : 2 ^ 53 = 9007199254740992) by reflexivity.
  assert (Hs : 0 <= _start m <= _end m) by (cbn [m _start _end main_monitor]; lia).
  assert (He : _end m <= 2 ^ 53) by (cbn [m _start _end main_monitor]; lia).
  destruct (updates_expected_closed m n l 0 Hs He ltac:(lia) ltac:(fold n; lia))
    as [Hrange Hsorted].
  split.
  - (* sorted: fewer than 14 inputs *)
    intros Hsort.
    destruct (Z.le_gt_cases n 13) as [Hle|Hgt]; [exact Hle | exfalso].
    destruct (main_period l n ltac:(lia)) as (p & Ep & Hp & Hcase).
    destruct (late_due_index n p ltac:(lia) Hp Hcase) as (K & HK & Hmod & Hlate).
    assert (HKn : (Z.to_nat K < List.length l)%nat) by (unfold n, len in HK; lia).
    destruct (nth_error l (Z.to_nat K)) as [v|] eqn:Ev;
      [|apply nth_error_None in Ev; lia].
    pose proof (updates_expected_In m n l 0 (Z.to_nat K) v Ev) as Hin.
    rewrite Z2Nat.id in Hin by lia. cbn [Z.add] in Hin.
    assert (Hdue : due m n K = true).
    { unfold due. fold m in Ep. rewrite Ep. apply Z.eqb_eq. exact Hmod. }
    specialize (Hin Hdue).
    apply (in_map fst) in Hin. cbn [fst] in Hin.
    assert (H71 : 71 <= progress m n K).
    { unfold progress. cbn [m _start _end main_monitor].
      apply main_scale_ge_71; lia. }
    apply StronglySorted_inv in Hsort. destruct Hsort as [Hsort _].
    apply StronglySorted_inv in Hsort. destruct Hsort as [Hsort _].
    pose proof (sorted_app_inv _ _ (progress m n K) 70 Hsort Hin
                  ltac:(left; reflexivity)).
    lia.
  - (* fewer than 14 inputs: sorted *)
    intros Hle.
    assert (H70 : Forall (fun pc => fst pc <= 70) (updates (expected m n 0 l))).
    { apply (updates_expected_all (fun z => z <= 70)).
      intros j Hj. fold n in Hj. unfold progress. cbn [m _start _end main_monitor].
      apply main_scale_le_70; lia. }
    assert (Hmid : forall x, In x (map fst (updates (expected m n 0 l))) ->
                             20 <= x <= 70).
    { intros x Hx. apply in_map_iff in Hx. destruct Hx as (pc & <- & Hpc).
      rewrite Forall_forall in Hrange, H70.
      pose proof (Hrange pc Hpc) as [_ Hr]. pose proof (H70 pc Hpc).
      cbn [m _start _end main_monitor] in Hr. lia. }
    apply sorted_app.
    + repeat constructor. lia.
    + apply sorted_app; [exact Hsorted | repeat constructor; lia |].
      intros x y Hx Hy. apply Hmid in Hx. cbn [In] in Hy. lia.
    + intros x y Hx Hy. cbn [In] in Hx.
      apply in_app_or in Hy. destruct Hy as [Hy|Hy].
      * apply Hmid in Hy. lia.
      * cbn [In] in Hy. lia.
Qed.

(** The job is set to [TERMINATED] by the runs of [main] that return, and
    by no other: a run that an exception ends has made no update with
    that status. *)
Theorem terminated_iff_returns (argv : list string) :
  existsb terminates (fst (main' argv)) = true <-> snd (main' argv) = Ok tt.
Proof.
  split.
  - intros Ht. destruct (snd (main' argv)) as [[]|e] eqn:E; [reflexivity|].
    rewrite (main_raise argv e E) in Ht. discriminate.
  - intros H.
    destruct (main_inv argv H) as (cls & d & net & t & net' & _ & _ & _ & _ & _ & Et).
    rewrite Et, !existsb_app. unfold epilogue.
    cbn [existsb terminates]. rewrite !orb_true_r. reflexivity.
Qed.

(** A run of [main] that returns has written one image per input, in the
    order of the inputs, each under [os.path.join(out_path, filename)],
    and every pixel it wrote is 0 or 1. *)
Theorem files_written (argv : list string) (cls : C) (d : data) :
  snd (main' argv) = Ok tt ->
  get_discipline = Ok cls -> prepare_data cls = Ok d ->
  map fst (written (fst (main' argv)))
  = map (fun r => path_join (out_path d) (filename r)) (in_images d) /\
  Forall (fun w => forall idx, item (snd w) idx = 0 \/ item (snd w) idx = 1)
         (written (fst (main' argv))).
Proof.
  intros H Hc Hd.
  destruct (main_inv argv H) as (cls' & d' & net & t & net' & Ec & Ed & _ & Er & Ef & Et).
  rewrite Hc in Ec. injection Ec as <-.
  rewrite Hd in Ed. injection Ed as <-.
  rewrite Et, !written_app. unfold prologue, epilogue. cbn [written app].
  rewrite app_nil_r.
  pose proof (for_each_ok d (trace (__iter__ (main_monitor (in_images d)))) net net')
    as Hok.
  pose proof (for_each_written_binary d
                (trace (__iter__ (main_monitor (in_images d)))) net) as Hbin.
  rewrite Ef in Hok, Hbin. cbn [fst snd] in Hok, Hbin.
  destruct (Hok eq_refl) as (_ & Hw & _).
  split; [|exact Hbin].
  rewrite Hw. f_equal.
  unfold __iter__ in Er |- *. cbn [main_monitor _iterable __len__ remaining] in Er |- *.
  destruct (yielded_loop_prefix (main_monitor (in_images d)) (len (in_images d))
              (in_images d) 0) as (_ & _ & Hy).
  apply Hy. exact Er.
Qed.

(** A run of [main] that returns has read every input as an array of
    three axes: one input of two axes, a grayscale image read as such,
    and the run ends in the [ValueError] of line 24. *)
Theorem inputs_have_three_axes (argv : list string) (cls : C) (d : data) :
  snd (main' argv) = Ok tt ->
  get_discipline = Ok cls -> prepare_data cls = Ok d ->
  Forall (fun r => exists img,
            imread (filepath r) = Ok img /\ List.length (shape img) = 3%nat)
         (in_images d).
Proof.
  intros H Hc Hd.
  destruct (main_inv argv H) as (cls' & d' & net & t & net' & Ec & Ed & _ & Er & Ef & _).
  rewrite Hc in Ec. injection Ec as <-.
  rewrite Hd in Ed. injection Ed as <-.
  pose proof (for_each_ok d (trace (__iter__ (main_monitor (in_images d)))) net net')
    as Hok.
  rewrite Ef in Hok. cbn [fst snd] in Hok.
  destruct (Hok eq_refl) as (_ & _ & Hr).
  unfold __iter__ in Er, Hr. cbn [main_monitor _iterable __len__ remaining] in Er, Hr.
  destruct (yielded_loop_prefix (main_monitor (in_images d)) (len (in_images d))
              (in_images d) 0) as (_ & _ & Hy).
  rewrite (Hy Er) in Hr. exact Hr.
Qed.

(** [main] returns when every library call returns, every input reads as
    an image on which [predict_img] returns and is written: the monitor
    of line 105 raises on no list of inputs. *)
Lemma main_returns_if (argv : list string) (cls : C) (d : data) (net : network W) :
  from_cli argv = Ok tt ->
  get_discipline = Ok cls ->
  prepare_data cls = Ok d ->
  load_model' "/app/model.pth" = Ok net ->
  len (in_images d) <= sys_maxsize ->
  (forall r, In r (in_images d) ->
     exists img,
       imread (filepath r) = Ok img /\
       forall net', exists mask,
         fst (predict net' img) = Ok mask /\
         imwrite (path_join (out_path d) (filename r)) (astype_uint8 mask) = Ok tt) ->
  upload_data cls (in_images d) (out_path d) = Ok tt ->
  upload_metrics cls (in_images d) (gt_path d) (out_path d) (tmp_path d) = Ok tt ->
  snd (main' argv) = Ok tt.
Proof.
  intros Ha Hc Hd Hl Hn Hbody Hu Hm.
  pose proof (sys_maxsize_safe _ Hn) as Hn'.
  assert (Hloop : exists net', snd (monitored_loop' d net) = Ok net').
  { unfold monitored_loop', monitored_loop. cbv zeta. fold for_each'.
    rewrite and_then_snd.
    rewrite (iter_sequence (main_monitor (in_images d)) (in_images d) eq_refl
               valid_period_0_05)
      by (try exact Hn'; apply float_safe_small; cbn [_start _end main_monitor]; lia).
    cbn [trace raised].
    destruct (for_each_succeeds d
                (expected (main_monitor (in_images d)) (len (in_images d)) 0
                   (in_images d)) net) as (net' & E).
    - intros net1 r Hin. rewrite yielded_expected in Hin.
      destruct (Hbody r Hin) as (img & Ei & Hp).
      destruct (Hp net1) as (mask & Em & Ew).
      destruct (process_cases d net1 r)
        as [(e & E)|(img' & mask' & Ei' & Em' & _ & Es)].
      + exfalso. revert E. unfold process', process.
        rewrite Ei. cbn [call and_then]. fold (predict net1 img).
        destruct (predict net1 img) as [rm net2]. cbn [fst] in Em. subst rm.
        cbn [call and_then emit]. rewrite Ew. cbn [call and_then ret app].
        discriminate.
      + rewrite Ei in Ei'. injection Ei' as <-.
        rewrite Em in Em'. injection Em' as <-.
        rewrite Es, Ew. cbn [bind]. eexists. reflexivity.
    - rewrite E. exists net'. reflexivity. }
  destruct Hloop as (net' & Hloop).
  unfold main', main.
  rewrite and_then_snd. cbn [call snd]. rewrite Ha.
  rewrite and_then_snd. cbn [call snd]. rewrite Hc.
  rewrite and_then_snd. cbn [emit snd].
  rewrite and_then_snd. cbn [call snd]. rewrite Hd.
  rewrite and_then_snd. cbn [emit snd].
  rewrite and_then_snd. cbn [call snd]. fold load_model'. rewrite Hl.
  rewrite and_then_snd. fold monitored_loop'. rewrite Hloop.
  rewrite and_then_snd. cbn [emit snd].
  rewrite and_then_snd. cbn [emit snd].
  rewrite and_then_snd. cbn [call snd]. rewrite Hu.
  rewrite and_then_snd. cbn [emit snd].
  rewrite and_then_snd. cbn [emit snd].
  rewrite and_then_snd. cbn [call snd]. rewrite Hm.
  reflexivity.
Qed.

(** When the run of [main] returns: every library call returning, every
    input reading as an image that [predict_img] accepts, and fewer inputs
    than a list can hold, are enough.  The monitor adds no failure of its
    own. *)
Theorem main_returns (argv : list string) (cls : C) (d : data) (net : network W) :
  from_cli argv = Ok tt ->
  get_discipline = Ok cls ->
  prepare_data cls = Ok d ->
  load_model' "/app/model.pth" = Ok net ->
  len (in_images d) <= sys_maxsize ->
  (forall r, In r (in_images d) ->
     exists img,
       imread (filepath r) = Ok img /\
       forall net', exists mask,
         fst (predict net' img) = Ok mask /\
         imwrite (path_join (out_path d) (filename r)) (astype_uint8 mask) = Ok tt) ->
  upload_data cls (in_images d) (out_path d) = Ok tt ->
  upload_metrics cls (in_images d) (gt_path d) (out_path d) (tmp_path d) = Ok tt ->
  snd (main' argv) = Ok tt /\
  existsb terminates (fst (main' argv)) = true.
Proof.
  intros Ha Hc Hd Hl Hn Hbody Hu Hm.
  pose proof (main_returns_if argv cls d net Ha Hc Hd Hl Hn Hbody Hu Hm) as H.
  split; [exact H|].
  destruct (main_inv argv H) as (cls' & d' & net0 & t & net' & _ & _ & _ & _ & _ & Et).
  rewrite Et, !existsb_app. unfold epilogue.
  cbn [existsb terminates]. rewrite !orb_true_r. reflexivity.
Qed.

End WorkflowFacts.

(** *** The properties on the workflow to run *)

Lemma toy_len (n : nat) : len (in_images (toy_data n)) = Z.of_nat n.
Proof. unfold len. cbn [toy_data in_images]. rewrite repeat_length. reflexivity. Qed.

Lemma toy_main_returns (n : nat) : (n <= 1000)%nat -> snd (toy_main n) = Ok tt.
Proof.
  intros Hn.
  apply (main_returns_if Z unit unit same_size (fun z => Fin (z * one)) (fun x _ => x)
           zero_model zero_resample
           (fun _ => Ok untrained) (fun net => Ok net) (fun _ => Ok tt) (fun net _ => Ok net)
           (fun _ => Ok tt) (Ok tt) (fun _ => Ok (toy_data n))
           (Fin 0) (fun _ => Ok (black [4; 5; 3]%nat))
           (fun a b => (a ++ "/" ++ b)%string)
           (fun _ _ => Ok tt) (fun _ _ _ => Ok tt) (fun _ _ _ _ _ => Ok tt)
           [] tt (toy_data n) untrained); try reflexivity.
  - rewrite toy_len. unfold sys_maxsize.
    assert (2 ^ 63 = 9223372036854775808) by reflexivity. lia.
  - intros r _. exists (black [4; 5; 3]%nat). split; [reflexivity|].
    intros net'. eexists. split; reflexivity.
Qed.

(** Fourteen inputs: the progress steps back. *)
Lemma progress_steps_back_14 :
  ~ StronglySorted Z.le (progress_of (fst (toy_main 14))).
Proof.
  assert (Hlen : len (in_images (toy_data 14)) <= 2 ^ 53)
    by (rewrite toy_len; vm_compute; discriminate).
  pose proof (progress_steps_back _ _ _ _ _ _ _ _ _ _ _ _ _ _ _ _ _ _ _ _ _
                [] tt (toy_data 14)
                (toy_main_returns 14 ltac:(lia)) eq_refl eq_refl Hlen) as [Hto _].
  intros Hs. specialize (Hto Hs). rewrite toy_len in Hto. lia.
Defined.

(** Three inputs: the run returns and sets the job to [TERMINATED]. *)
Lemma main_returns_toy :
  snd (toy_main 3) = Ok tt /\ existsb terminates (fst (toy_main 3)) = true.
Proof.
  apply (main_returns _ _ _ _ _ _ _ _ _ _ _ _ _ _ _ _ _ _ _ _ _
           [] tt (toy_data 3) untrained); try reflexivity.
  - rewrite toy_len. vm_compute. discriminate.
  - intros r _. exists (black [4; 5; 3]%nat). split; [reflexivity|].
    intros net'. eexists. split; reflexivity.
Defined.

(** Three inputs of the same name: three files, all under that name. *)
Lemma files_written_toy :
  map fst (written (fst (toy_main 3)))
  = ["out/a.png"; "out/a.png"; "out/a.png"]%string.
Proof.
  destruct (files_written _ _ _ _ _ _ _ _ _ _ _ _ _ _ _ _ _ _ _ _ _
              [] tt (toy_data 3)
              (toy_main_returns 3 ltac:(lia)) eq_refl eq_refl) as [Hw _].
  rewrite Hw. reflexivity.
Defined.

(** Three inputs read as colour images. *)
Lemma inputs_have_three_axes_toy :
  Forall (fun r : image_ref =>
            exists img : ndarray Z, List.length (shape img) = 3%nat)
         (in_images (toy_data 3)).
Proof.
  pose proof (inputs_have_three_axes _ _ _ _ _ _ _ _ _ _ _ _ _ _ _ _ _ _ _ _ _
                [] tt (toy_data 3)
                (toy_main_returns 3 ltac:(lia)) eq_refl eq_refl) as Hr.
  eapply Forall_impl; [|exact Hr].
  intros r (img & _ & Hl). exists img. exact Hl.
Defined.

End MainFacts.
